(** * Company context versioning, context diagnostic and team members

    A shallow embedding of the request handlers of the SaaS backend that
    maintain the versioned company context
    ([controllers/companyController.js]: [getCompanyById], [createCompany],
    [deleteCompany], [updateTrainingStatus], [getCompanyContext],
    [updateCompanyContext], [storeSummary]), of the context-diagnostic
    route of [routes/companyRoutes.js], of the handlers of
    [controllers/teams.js] on teams and their members, and of the script
    [scripts/migrateCompanyContexts.js], together with the properties of
    these handlers.

    Modelling conventions.
    - A MongoDB collection with a unique index is a finite map on the indexed
      key ([Company], unique on [companyId]; [Team], on [_id]); a collection
      without one is the list of its documents in insertion order
      ([CompanyContext]).
    - Request fields are [option string]: [None] is an absent field.
    - The [Number] field [version] is an integer ([Z]): the model covers
      the integers below 2^53, on which [Number] arithmetic is exact.
    - [createdAt], [updatedAt], [logoUrl] and [brandColor] are read by none
      of the handlers' decisions and are left out of the documents; the
      [_id] of a team is its key in the store.
    - A string is held as the bytes of its UTF-8 encoding, the form in
      which the request body carries it and the database stores it (a lone
      surrogate as the three bytes of its code point): two strings are equal
      when their encodings are, [Js.length] counts the UTF-16 code units of
      the text, which is what [length] answers, and [Js.trim] removes the
      white space and the line terminators of ECMAScript.
    - A handler runs against a [world]: the store and a fault oracle that
      tells which database call of the request, if any, throws.
    - What Mongoose decides from code that is not among the sources is a
      parameter of the handlers on teams: which strings it casts to an
      [ObjectId], which depends on its version, and whether the document of
      a team passes the validation that [save] runs, which also reads the
      paths of the document that no handler reads. *)

From stdpp Require Import base option list gmap strings pretty.
From Stdlib Require Import ZArith Ascii String Lia Sorting.Sorted.

Open Scope string_scope.

(** ** JavaScript values *)

Module Js.

(** Truthiness of a value that is [undefined] or a string: [!v] is true
    for [undefined] and for the empty string. *)
Definition truthy (v : option string) : bool :=
  match v with
  | None => false
  | Some s => negb (String.eqb s "")
  end.

(** The string behind a truthy value. *)
Definition str (v : option string) : string := default "" v.

(** The white space and the line terminators of ECMAScript, which
    [String.prototype.trim] removes, by the bytes of their UTF-8 encoding.
    One byte: TAB, LF, VT, FF, CR and SPACE. *)
Definition isWhiteSpace (a : ascii) : bool :=
  let n := nat_of_ascii a in
  ((9 <=? n)%nat && (n <=? 13)%nat) || (n =? 32)%nat.

(** Two bytes: U+00A0, the no-break space. *)
Definition isWhiteSpace2 (a b : ascii) : bool :=
  (nat_of_ascii a =? 0xC2)%nat && (nat_of_ascii b =? 0xA0)%nat.

(** Three bytes: U+1680; U+2000 to U+200A, U+2028, U+2029 and U+202F;
    U+205F; U+3000; U+FEFF, the byte order mark. *)
Definition isWhiteSpace3 (a b c : ascii) : bool :=
  let '(x, y, z) := (nat_of_ascii a, nat_of_ascii b, nat_of_ascii c) in
  ((x =? 0xE1) && (y =? 0x9A) && (z =? 0x80))%nat
  || ((x =? 0xE2) && (y =? 0x80)
      && (((0x80 <=? z) && (z <=? 0x8A)) || (z =? 0xA8) || (z =? 0xA9)
          || (z =? 0xAF)))%nat
  || ((x =? 0xE2) && (y =? 0x81) && (z =? 0x9F))%nat
  || ((x =? 0xE3) && (y =? 0x80) && (z =? 0x80))%nat
  || ((x =? 0xEF) && (y =? 0xBB) && (z =? 0xBF))%nat.

Fixpoint trimStart (s : string) : string :=
  match s with
  | EmptyString => EmptyString
  | String a s1 =>
      if isWhiteSpace a then trimStart s1
      else
        match s1 with
        | EmptyString => s
        | String b s2 =>
            if isWhiteSpace2 a b then trimStart s2
            else
              match s2 with
              | EmptyString => s
              | String c s3 => if isWhiteSpace3 a b c then trimStart s3 else s
              end
        end
  end.

(** The text up to the white space it ends with: the text is cut where
    what follows is white space only. No white space character starts
    with a continuation byte, so the cut falls between two characters. *)
Fixpoint trimEnd (s : string) : string :=
  match s with
  | EmptyString => EmptyString
  | String a s' =>
      if String.eqb (trimStart s) "" then EmptyString else String a (trimEnd s')
  end.

Definition trim (s : string) : string := trimEnd (trimStart s).

(** The UTF-16 code units a byte of UTF-8 text stands for: one for a byte
    that starts a character, two for the first of four bytes (a character
    beyond U+FFFF, a surrogate pair in UTF-16), none for a continuation
    byte. *)
Definition codeUnits (a : ascii) : nat :=
  let n := nat_of_ascii a in
  if (n <? 0x80)%nat then 1
  else if (n <? 0xC0)%nat then 0
  else if (n <? 0xF0)%nat then 1
  else 2.

(** [s.length] *)
Fixpoint length (s : string) : nat :=
  match s with
  | EmptyString => 0
  | String a s' => codeUnits a + length s'
  end.

End Js.

(** ** Documents and the store *)

Inductive TrainingStatus := in_progress | completed | failed.

(** [models/Company.js] *)
Record Company := {
  companyId : string;
  name : string;
  documentName : option string;
  documentContext : string;
  trainingStatus : TrainingStatus;
  chatbotUrl : string
}.

(** [models/CompanyContext.js] *)
Record CompanyContext := {
  company_id : string;
  context : string;
  version : Z;
  isActive : bool
}.

(** [models/Team.js]; a membership entry need not carry a [user]. *)
Record Member := {
  user : option string;
  role : string
}.

Record Team := {
  teamName : string;
  owner : string;
  members : list Member
}.

Record Db := {
  companies : gmap string Company;
  contexts : list CompanyContext;
  teams : gmap string Team
}.

Definition emptyDb : Db :=
  {| companies := ∅; contexts := []; teams := ∅ |}.

(** ** Errors, responses and the handler monad *)

Inductive error :=
| HttpError (message : string) (statusCode : Z)
| ValidationError (path : string)
| TypeError
| CastError (value : string)
| DriverError.

(** [utils/errorResponse.js] *)
Definition createError (message : string) (statusCode : Z) : error :=
  HttpError message statusCode.

Inductive Data :=
| DataCompany (c : Company)
| DataEmpty
| DataContext (id nm ctx : string) (ver : Z) (source : string)
| DataUpdated (id nm ctx : string) (ver : Z) (active : bool)
| DataTeam (t : Team).

(** What a handler does with the request: [res.status(s).json({success:
    true, data})] or [next(err)]. *)
Inductive Response :=
| Json (status : Z) (data : Data)
| Next (e : error).

Record world := {
  store : Db;
  fault : option nat
}.

Inductive outcome (A : Type) :=
| Return (a : A)
| Raise (e : error).
Arguments Return {A} a.
Arguments Raise {A} e.

Definition M (A : Type) : Type := world -> outcome A * world.

Definition ret {A} (a : A) : M A := fun w => (Return a, w).

Definition raise {A} (e : error) : M A := fun w => (Raise e, w).

(** A synchronous computation inside an async function. *)
Definition sync {A} (o : outcome A) : M A := fun w => (o, w).

Definition bind {A B} (m : M A) (k : A -> M B) : M B := fun w =>
  match m w with
  | (Return a, w') => k a w'
  | (Raise e, w') => (Raise e, w')
  end.

Declare Scope handler_scope.
Delimit Scope handler_scope with handler.
Notation "'let*' x ':=' m 'in' k" := (bind m (fun x => k))
  (at level 10, x name, m at level 100, k at level 200) : handler_scope.
Notation "m ';;' k" := (bind m (fun _ => k))
  (at level 100, k at level 200, right associativity) : handler_scope.

(** An awaited database call: it throws when the oracle points at it, and
    otherwise runs [op] on the store. *)
Definition await {A} (op : Db -> A * Db) : M A := fun w =>
  match fault w with
  | Some O => (Raise DriverError, {| store := store w; fault := None |})
  | Some (S k) =>
      let (a, db) := op (store w) in (Return a, {| store := db; fault := Some k |})
  | None =>
      let (a, db) := op (store w) in (Return a, {| store := db; fault := None |})
  end.

(** [try { body } catch (error) { await session.abortTransaction(); ... }]
    around the writes of one session: aborting discards the writes the
    session made. *)
Definition tryTransaction {A} (body : M A) (handler : error -> M A) : M A :=
  fun w =>
    match body w with
    | (Return a, w') => (Return a, w')
    | (Raise e, w') => handler e {| store := store w; fault := fault w' |}
    end.

(** [try { body } catch (err) { ... }] without a session. *)
Definition tryCatch {A} (body : M A) (handler : error -> M A) : M A :=
  fun w =>
    match body w with
    | (Return a, w') => (Return a, w')
    | (Raise e, w') => handler e w'
    end.

(** Running an async function to its end: its value, or what the
    outermost [catch] makes of the error. *)
Definition settle {A} (fn : M A) (onRejected : error -> A) : world -> A * world :=
  fun w =>
    match fn w with
    | (Return a, w') => (a, w')
    | (Raise e, w') => (onRejected e, w')
    end.

(** [middleware/asyncHandler.js]: a rejected promise goes to [next]. *)
Definition asyncHandler (fn : M Response) : world -> Response * world :=
  settle fn Next.

(** ** Queries *)

Module Query.

Definition byCompany (cid : string) (c : CompanyContext) : bool :=
  String.eqb (company_id c) cid.

Definition activeOf (cid : string) (c : CompanyContext) : bool :=
  byCompany cid c && isActive c.

(** [find(q)] *)
Definition find (q : CompanyContext -> bool) (l : list CompanyContext)
  : list CompanyContext := List.filter q l.

(** One step of the scan for the highest version; the earlier document
    wins a tie. *)
Definition newer (best : option CompanyContext) (c : CompanyContext)
  : option CompanyContext :=
  match best with
  | None => Some c
  | Some b => if (version b <? version c)%Z then Some c else Some b
  end.

(** [findOne(q).sort({ version: -1 })] *)
Definition findOneLatest (q : CompanyContext -> bool)
  (l : list CompanyContext) : option CompanyContext :=
  fold_left newer (find q l) None.

(** [updateMany(q, { isActive: false })] *)
Definition deactivate (q : CompanyContext -> bool) (c : CompanyContext)
  : CompanyContext :=
  if q c then
    {| company_id := company_id c; context := context c;
       version := version c; isActive := false |}
  else c.

Definition updateManyInactive (q : CompanyContext -> bool)
  (l : list CompanyContext) : list CompanyContext := map (deactivate q) l.

(** [find(q).sort({ version: -1 })]: insertion into a list sorted by
    decreasing version, stable. *)
Fixpoint insertDesc (c : CompanyContext) (l : list CompanyContext)
  : list CompanyContext :=
  match l with
  | [] => [c]
  | d :: l' => if (version d <? version c)%Z then c :: l else d :: insertDesc c l'
  end.

Definition sortDesc (l : list CompanyContext) : list CompanyContext :=
  fold_right insertDesc [] l.

End Query.

(** Database calls on the store. *)

Definition Company_findOne (cid : string) : M (option Company) :=
  await (fun db => (companies db !! cid, db)).

Definition setCompanies (f : gmap string Company -> gmap string Company)
  (db : Db) : Db :=
  {| companies := f (companies db); contexts := contexts db; teams := teams db |}.

Definition setContexts (f : list CompanyContext -> list CompanyContext)
  (db : Db) : Db :=
  {| companies := companies db; contexts := f (contexts db); teams := teams db |}.

Definition setTeams (f : gmap string Team -> gmap string Team) (db : Db) : Db :=
  {| companies := companies db; contexts := contexts db; teams := f (teams db) |}.

(** [Company.create]: the schema trims [name] and [documentName] and
    requires [companyId], [name], [documentContext] and [chatbotUrl] to be
    non-empty strings. *)
Definition Company_validate (c : Company) : option string :=
  if String.eqb (companyId c) "" then Some "companyId"
  else if String.eqb (name c) "" then Some "name"
  else if String.eqb (documentContext c) "" then Some "documentContext"
  else if String.eqb (chatbotUrl c) "" then Some "chatbotUrl"
  else None.

Definition Company_cast (cid nm : string) (dn : option string)
  (ctx : string) (st : TrainingStatus) (url : string) : Company :=
  {| companyId := cid; name := Js.trim nm; documentName := Js.trim <$> dn;
     documentContext := ctx; trainingStatus := st; chatbotUrl := url |}.

Definition Company_create (c : Company) : M Company :=
  match Company_validate c with
  | Some path => raise (ValidationError path)
  | None => await (fun db => (c, setCompanies (insert (companyId c) c) db))
  end.

(** [CompanyContext.create]: [company_id] and [context] are required. *)
Definition CompanyContext_validate (c : CompanyContext) : option string :=
  if String.eqb (company_id c) "" then Some "company_id"
  else if String.eqb (context c) "" then Some "context"
  else None.

Definition CompanyContext_create (c : CompanyContext) : M CompanyContext :=
  match CompanyContext_validate c with
  | Some path => raise (ValidationError path)
  | None => await (fun db => (c, setContexts (fun l => (l ++ [c])%list) db))
  end.

Definition startSession : M unit := await (fun db => (tt, db)).
Definition commitTransaction : M unit := await (fun db => (tt, db)).
Definition abortTransaction : M unit := await (fun db => (tt, db)).

(** ** controllers/companyController.js *)

Record CreateBody := {
  body_companyId : option string;
  body_name : option string;
  body_documentName : option string;
  body_documentContext : option string;
  body_chatbotUrl : option string
}.

Open Scope handler_scope.

Definition createCompany (body : CreateBody) : world -> Response * world :=
  asyncHandler (
    if negb (Js.truthy (body_companyId body)) || negb (Js.truthy (body_name body))
       || negb (Js.truthy (body_documentContext body))
       || negb (Js.truthy (body_chatbotUrl body))
    then ret (Next (createError
           "Please provide companyId, name, documentContext, and chatbotUrl" 400))
    else
      let cid := Js.str (body_companyId body) in
      let documentContext := Js.str (body_documentContext body) in
      let* existingCompany := Company_findOne cid in
      match existingCompany with
      | Some _ =>
          ret (Next (createError ("Company with ID " ++ cid ++ " already exists") 400))
      | None =>
          startSession ;;
          tryTransaction
            (let* company := Company_create
               (Company_cast cid (Js.str (body_name body)) (body_documentName body)
                  documentContext completed (Js.str (body_chatbotUrl body))) in
             CompanyContext_create
               {| company_id := cid; context := documentContext;
                  version := 1; isActive := true |} ;;
             commitTransaction ;;
             ret (Json 201 (DataCompany company)))
            (fun error => abortTransaction ;; ret (Next error))
      end).

Definition notFound (cid : string) : error :=
  createError ("Company with ID " ++ cid ++ " not found") 404.

Definition deleteCompany (cid : string) : world -> Response * world :=
  asyncHandler (
    let* company := Company_findOne cid in
    match company with
    | None => ret (Next (notFound cid))
    | Some c =>
        await (fun db => (tt, setCompanies (delete cid) db)) ;;
        ret (Json 200 DataEmpty)
    end).

Definition getCompanyContext (cid : string) : world -> Response * world :=
  asyncHandler (
    let* company := Company_findOne cid in
    match company with
    | None => ret (Next (notFound cid))
    | Some company =>
        let* found := await (fun db =>
          (Query.findOneLatest (Query.activeOf cid) (contexts db), db)) in
        match found with
        | None =>
            if String.eqb (documentContext company) ""
            then ret (Next (createError
                   ("No context available for company with ID " ++ cid) 404))
            else ret (Json 200 (DataContext (companyId company) (name company)
                        (documentContext company) 1 "company_fallback"))
        | Some latest =>
            ret (Json 200 (DataContext (companyId company) (name company)
                   (context latest) (version latest) "context_collection"))
        end
    end).

Record ContextBody := {
  body_context : option string
}.

Definition newVersionOf (latestContext : option CompanyContext) : Z :=
  match latestContext with
  | Some latest => (version latest + 1)%Z
  | None => 1%Z
  end.

(** The read of the latest version number; it is not part of the session. *)
Definition readNewVersion (cid : string) : M Z :=
  let* latestContext := await (fun db =>
    (Query.findOneLatest (Query.byCompany cid) (contexts db), db)) in
  ret (newVersionOf latestContext).

Definition setDocumentContext (ctx : string) (c : Company) : Company :=
  {| companyId := companyId c; name := name c; documentName := documentName c;
     documentContext := ctx; trainingStatus := trainingStatus c;
     chatbotUrl := chatbotUrl c |}.

(** The three writes of the session and its commit. *)
Definition writeNewVersion (cid ctx : string) (newVersion : Z) : M CompanyContext :=
  await (fun db =>
    (tt, setContexts (Query.updateManyInactive (Query.byCompany cid)) db)) ;;
  let* newContext := CompanyContext_create
    {| company_id := cid; context := ctx; version := newVersion; isActive := true |} in
  await (fun db => (tt, setCompanies (alter (setDocumentContext ctx) cid) db)) ;;
  commitTransaction ;;
  ret newContext.

Definition updated (company : Company) (newContext : CompanyContext) : Response :=
  Json 200 (DataUpdated (companyId company) (name company) (context newContext)
              (version newContext) (isActive newContext)).

Definition updateCompanyContext (cid : string) (body : ContextBody)
  : world -> Response * world :=
  asyncHandler (
    if negb (Js.truthy (body_context body))
    then ret (Next (createError "Please provide the context to update" 400))
    else
      let* company := Company_findOne cid in
      match company with
      | None => ret (Next (notFound cid))
      | Some company =>
          startSession ;;
          tryTransaction
            (let* newVersion := readNewVersion cid in
             let* newContext :=
               writeNewVersion cid (Js.str (body_context body)) newVersion in
             ret (updated company newContext))
            (fun error => abortTransaction ;; ret (Next error))
      end).

(** ** routes/companyRoutes.js: the context-diagnostic route *)

Module CompanyRoutes.

Record ContextInfo := {
  info_version : Z;
  info_isActive : bool;
  info_contextLength : nat
}.

Inductive Diagnostic :=
| NotExisting (cid action : string)
| Existing (cid companyName : string) (hasDocumentContext : bool)
    (documentContextLength contextsCount activeContexts : nat)
    (infos : list ContextInfo) (suggestion action : option string).

(** The [exists] field of the report. *)
Definition diag_exists (d : Diagnostic) : bool :=
  match d with
  | NotExisting _ _ => false
  | Existing _ _ _ _ _ _ _ _ _ => true
  end.

Definition diag_suggestion (d : Diagnostic) : option string :=
  match d with
  | NotExisting _ _ => None
  | Existing _ _ _ _ _ _ _ s _ => s
  end.

(** The [error] field: a literal, or [error.message || dflt]. *)
Inductive ErrorText :=
| Text (s : string)
| MessageOr (e : error) (dflt : string).

Record DiagnosticResponse := {
  status : Z;
  success : bool;
  errorText : option ErrorText;
  diagnostic : option Diagnostic
}.

(** The [exists] and the [suggestion] field of the report in a response. *)
Definition reportsExists (r : DiagnosticResponse) : option bool :=
  diag_exists <$> diagnostic r.

Definition suggested (r : DiagnosticResponse) : option string :=
  match diagnostic r with
  | Some d => diag_suggestion d
  | None => None
  end.

Definition infoOf (c : CompanyContext) : ContextInfo :=
  {| info_version := version c; info_isActive := isActive c;
     info_contextLength := Js.length (context c) |}.

Definition report (cid : string) (company : Company)
  (found : list CompanyContext) : Diagnostic :=
  let hasDocumentContext :=
    negb (String.eqb (documentContext company) "")
    && (100 <? Js.length (documentContext company))%nat in
  let activeContexts := List.length (List.filter isActive found) in
  let '(suggestion, action) :=
    if (List.length found =? 0)%nat && hasDocumentContext then
      (Some "CREATE_CONTEXT",
       Some ("POST to /api/companies/" ++ cid ++ "/context with the documentContext"))
    else if (List.length found =? 0)%nat && negb hasDocumentContext then
      (Some "UPLOAD_DOCUMENT", Some "Upload a document and train the model again")
    else if (1 <? List.length (List.filter isActive found))%nat then
      (Some "FIX_ACTIVE_CONTEXTS",
       Some "Multiple active contexts found, should be fixed")
    else (None, None) in
  Existing cid (name company) hasDocumentContext
    (Js.length (documentContext company)) (List.length found) activeContexts
    (map infoOf found) suggestion action.

(** [models] is [req.app.get('models')]: absent, or an object that may
    hold the [Company] and the [CompanyContext] model. *)
Definition contextDiagnostic (models : option (bool * bool)) (cid : string)
  : world -> DiagnosticResponse * world :=
  settle
    (match models with
     | None => raise TypeError
     | Some (hasCompany, hasCompanyContext) =>
         if negb hasCompany || negb hasCompanyContext then
           ret {| status := 500; success := false;
                  errorText := Some (Text "Models not available in the application context");
                  diagnostic := None |}
         else
           let* company := Company_findOne cid in
           match company with
           | None =>
               ret {| status := 404; success := false;
                      errorText := Some (Text "Company not found");
                      diagnostic :=
                        Some (NotExisting cid "Company must be created first") |}
           | Some company =>
               let* found := await (fun db =>
                 (Query.sortDesc (Query.find (Query.byCompany cid) (contexts db)),
                  db)) in
               ret {| status := 200; success := true; errorText := None;
                      diagnostic := Some (report cid company found) |}
           end
     end)
    (fun error =>
       {| status := 500; success := false;
          errorText := Some (MessageOr error "Error running context diagnostic");
          diagnostic := None |}).

End CompanyRoutes.

(** ** controllers/teams.js *)

Module Teams.

(** [members.find(member => member.user.toString() === uid)]; reading
    [toString] of an absent [user] throws. *)
Fixpoint find (uid : string) (l : list Member) : outcome (option Member) :=
  match l with
  | [] => Return None
  | m :: l' =>
      match user m with
      | None => Raise TypeError
      | Some u => if String.eqb u uid then Return (Some m) else find uid l'
      end
  end.

(** [members.findIndex(...)], with [None] for -1. *)
Fixpoint findIndex (uid : string) (l : list Member) : outcome (option nat) :=
  match l with
  | [] => Return None
  | m :: l' =>
      match user m with
      | None => Raise TypeError
      | Some u =>
          if String.eqb u uid then Return (Some O)
          else match findIndex uid l' with
               | Return i => Return (S <$> i)
               | Raise e => Raise e
               end
      end
  end.

(** [members.splice(i, 1)] *)
Definition splice1 (i : nat) (l : list Member) : list Member :=
  (take i l ++ drop (S i) l)%list.

Definition setMembers (l : list Member) (t : Team) : Team :=
  {| teamName := teamName t; owner := owner t; members := l |}.

Definition authorized (userMember : option Member) : bool :=
  match userMember with
  | None => false
  | Some m => String.eqb (role m) "owner" || String.eqb (role m) "admin"
  end.

Section WithMongoose.

(** [castObjectId id] is the [ObjectId] that Mongoose casts the string
    [id] to, by its hexadecimal string, and [None] when the cast throws. *)
Context (castObjectId : string -> option string).

(** [validateTeam oid team] is the path, if any, at which the document
    [oid] with the owner and the members of [team] fails the validation
    against [TeamSchema] that [save] runs before it writes. The schema
    also validates the paths that no handler reads ([description],
    [businessId], [inviteStatus] and [inviteEmail] of a member), which the
    documents of the store leave out. *)
Context (validateTeam : string -> Team -> option string).

(** [Team.findById(id)]: the cast of [id] throws a [CastError] before the
    database is asked; the answer is the document with its [_id]. *)
Definition Team_findById (id : string) : M (option (string * Team)) :=
  match castObjectId id with
  | None => raise (CastError id)
  | Some oid => await (fun db => (pair oid <$> teams db !! oid, db))
  end.

(** [team.save()] *)
Definition Team_save (oid : string) (team : Team) : M unit :=
  match validateTeam oid team with
  | Some path => raise (ValidationError path)
  | None => await (fun db => (tt, setTeams (insert oid team) db))
  end.

Definition removeTeamMember (teamId callerId targetId : string)
  : world -> Response * world :=
  settle (tryCatch (
    let* team := Team_findById teamId in
    match team with
    | None => ret (Next (createError "Team not found" 404))
    | Some (oid, team) =>
        let* userMember := sync (find callerId (members team)) in
        if negb (authorized userMember) then
          ret (Next (createError "Not authorized to remove members" 403))
        else if String.eqb (owner team) targetId then
          ret (Next (createError "Team owner cannot be removed" 400))
        else
          let* memberIndex := sync (findIndex targetId (members team)) in
          match memberIndex with
          | None => ret (Next (createError "User is not a team member" 404))
          | Some i =>
              let saved := setMembers (splice1 i (members team)) team in
              Team_save oid saved ;;
              ret (Json 200 (DataTeam saved))
          end
    end)
    (fun err => ret (Next err))) Next.

End WithMongoose.

End Teams.

(** ** Histories of requests served one after the other *)

Inductive Request :=
| CreateCompany (body : CreateBody)
| UpdateCompanyContext (cid : string) (body : ContextBody)
| DeleteCompany (cid : string).

Definition serve (r : Request) : world -> Response * world :=
  match r with
  | CreateCompany body => createCompany body
  | UpdateCompanyContext cid body => updateCompanyContext cid body
  | DeleteCompany cid => deleteCompany cid
  end.

(** The store after request [r] was served with fault oracle [f]. *)
Definition after (db : Db) (rf : Request * option nat) : Db :=
  store (snd (serve (fst rf) {| store := db; fault := snd rf |})).

Definition run (h : list (Request * option nat)) (db : Db) : Db :=
  fold_left after h db.

Definition isDelete (rf : Request * option nat) : bool :=
  match fst rf with
  | DeleteCompany _ => true
  | _ => false
  end.

(** Version numbers of a company's records, in insertion order. *)
Definition versionsOf (cid : string) (db : Db) : list Z :=
  map version (Query.find (Query.byCompany cid) (contexts db)).

(** The records of a company that are marked active. *)
Definition activeOf (cid : string) (db : Db) : list CompanyContext :=
  Query.find (Query.activeOf cid) (contexts db).

(** ** Two context updates in flight at once

    A request gives way to the other one at each of its awaits that reads
    or changes what the other can see: the company lookup, the read of the
    latest version (made outside the session), and the session, whose
    writes become visible together when it commits or not at all. *)

Module Concurrent.

Inductive Phase :=
| Received
| Looked (company : Company)
| Versioned (company : Company) (newVersion : Z)
| Responded (r : Response).

Definition rejected (e : error) : Phase := Responded (Next e).

Definition advance (cid : string) (body : ContextBody) (ph : Phase)
  : world -> Phase * world :=
  match ph with
  | Received =>
      settle
        (if negb (Js.truthy (body_context body))
         then ret (rejected (createError "Please provide the context to update" 400))
         else
           let* company := Company_findOne cid in
           match company with
           | None => ret (rejected (notFound cid))
           | Some company => startSession ;; ret (Looked company)
           end)
        rejected
  | Looked company =>
      settle
        (tryTransaction
           (let* newVersion := readNewVersion cid in
            ret (Versioned company newVersion))
           (fun error => abortTransaction ;; ret (rejected error)))
        rejected
  | Versioned company newVersion =>
      settle
        (tryTransaction
           (let* newContext :=
              writeNewVersion cid (Js.str (body_context body)) newVersion in
            ret (Responded (updated company newContext)))
           (fun error => abortTransaction ;; ret (rejected error)))
        rejected
  | Responded r => fun w => (Responded r, w)
  end.

Record State := {
  first : Phase;
  second : Phase;
  shared : Db
}.

Inductive Turn :=
| TurnFirst (f : option nat)
| TurnSecond (f : option nat).

Definition turn (cid : string) (b1 b2 : ContextBody) (s : State) (t : Turn)
  : State :=
  match t with
  | TurnFirst f =>
      let (ph, w) := advance cid b1 (first s) {| store := shared s; fault := f |} in
      {| first := ph; second := second s; shared := store w |}
  | TurnSecond f =>
      let (ph, w) := advance cid b2 (second s) {| store := shared s; fault := f |} in
      {| first := first s; second := ph; shared := store w |}
  end.

Definition interleave (cid : string) (b1 b2 : ContextBody)
  (schedule : list Turn) (db : Db) : State :=
  fold_left (turn cid b1 b2) schedule
    {| first := Received; second := Received; shared := db |}.

(** The request was answered 200. *)
Definition succeeded (ph : Phase) : Prop :=
  ∃ d, ph = Responded (Json 200 d).

(** The company has exactly one active record, and it carries the text
    of one of the two requests. *)
Definition oneActiveOf (cid : string) (b1 b2 : ContextBody) (db : Db) : Prop :=
  ∃ c, activeOf cid db = [c]
       ∧ (body_context b1 = Some (context c) ∨ body_context b2 = Some (context c)).

(** How far a request has come. *)
Definition rank (ph : Phase) : nat :=
  match ph with
  | Received => 0
  | Looked _ => 1
  | Versioned _ _ => 2
  | Responded _ => 3
  end.

(** The number of turns a schedule gives to the first and to the second
    request. *)
Definition turnsOfFirst (schedule : list Turn) : nat :=
  List.length (List.filter
    (fun t => match t with TurnFirst _ => true | TurnSecond _ => false end)
    schedule).

Definition turnsOfSecond (schedule : list Turn) : nat :=
  List.length (List.filter
    (fun t => match t with TurnFirst _ => false | TurnSecond _ => true end)
    schedule).

(** Two requests that give way to each other at every turn. *)
Definition alternate (f : option nat) : list Turn :=
  [TurnFirst f; TurnSecond f; TurnFirst f; TurnSecond f; TurnFirst f; TurnSecond f].

End Concurrent.

(** ** Vocabulary of the properties *)

(** The store a committed [createCompany] leaves. *)
Definition created (body : CreateBody) (db : Db) : Db :=
  let cid := Js.str (body_companyId body) in
  let ctx := Js.str (body_documentContext body) in
  {| companies :=
       <[cid := Company_cast cid (Js.str (body_name body)) (body_documentName body)
                  ctx completed (Js.str (body_chatbotUrl body))]> (companies db);
     contexts := (contexts db ++
       [{| company_id := cid; context := ctx; version := 1; isActive := true |}])%list;
     teams := teams db |}.

(** The store a committed [updateCompanyContext] leaves when it wrote
    version [v]. *)
Definition contextWritten (cid ctx : string) (v : Z) (db : Db) : Db :=
  {| companies :=
       alter (fun c =>
                {| companyId := companyId c; name := name c;
                   documentName := documentName c; documentContext := ctx;
                   trainingStatus := trainingStatus c;
                   chatbotUrl := chatbotUrl c |}) cid (companies db);
     contexts := (Query.updateManyInactive (Query.byCompany cid) (contexts db) ++
       [{| company_id := cid; context := ctx; version := v; isActive := true |}])%list;
     teams := teams db |}.

(** The maximum of a list of numbers, 0 for the empty list. *)
Definition listMax (vs : list Z) : Z :=
  match vs with
  | [] => 0%Z
  | v :: vs' => foldr Z.max v vs'
  end.

(** In the words of the specification: the current maximum version number
    of a company's records, 0 if it has none. *)
Definition previousMax (cid : string) (db : Db) : Z :=
  listMax (versionsOf cid db).



(** A store in which every version record belongs to an existing company
    and each company has at most one active record. *)
Definition consistent (db : Db) : Prop :=
  ∀ cid,
    (companies db !! cid = None → Query.find (Query.byCompany cid) (contexts db) = [])
    ∧ (List.length (activeOf cid db) ≤ 1)%nat.



Definition noDelete (h : list (Request * option nat)) : bool :=
  forallb (fun rf => negb (isDelete rf)) h.

(** ** Sample requests and stores *)

Definition acme (cid text : string) : CreateBody :=
  {| body_companyId := Some cid; body_name := Some "Acme";
     body_documentName := None; body_documentContext := Some text;
     body_chatbotUrl := Some ("/" ++ cid) |}.

Definition newText (text : string) : ContextBody :=
  {| body_context := Some text |}.

(** The scenario of the specification: a company is created and its
    context is updated once. *)
Definition scenario : list (Request * option nat) :=
  [(CreateCompany (acme "c1" "ctx-v1"), None);
   (UpdateCompanyContext "c1" (newText "ctx-v2"), None)].


(** A company record from before the versioned collection existed. *)
Definition legacyCompany (text : string) : Company :=
  {| companyId := "c1"; name := "Acme"; documentName := None;
     documentContext := text; trainingStatus := completed; chatbotUrl := "/c1" |}.

Definition legacyDb (text : string) : Db :=
  {| companies := {[ "c1" := legacyCompany text ]}; contexts := []; teams := ∅ |}.

(** U+00A0, the no-break space, and U+00E9, the letter e with an acute
    accent: two bytes and one UTF-16 code unit each. *)
Definition nbsp : string :=
  String (ascii_of_nat 0xC2) (String (ascii_of_nat 0xA0) EmptyString).

Definition eAcute : string :=
  String (ascii_of_nat 0xC3) (String (ascii_of_nat 0xA9) EmptyString).

(** [s.repeat(n)] *)
Fixpoint repeated (n : nat) (s : string) : string :=
  match n with
  | O => EmptyString
  | S k => s ++ repeated k s
  end.

(** The [ObjectId]s of a team and of three users. *)
Abbreviation team1 := "64e1a0000000000000000001" (only parsing).
Abbreviation user1 := "64e1b0000000000000000001" (only parsing).
Abbreviation user2 := "64e1b0000000000000000002" (only parsing).
Abbreviation user3 := "64e1b0000000000000000003" (only parsing).

(** The cast of the samples: a string of 24 hexadecimal digits is the
    [ObjectId] with these digits, in lower case. *)
Definition hexDigit (a : ascii) : option ascii :=
  let n := nat_of_ascii a in
  if ((48 <=? n) && (n <=? 57) || (97 <=? n) && (n <=? 102))%nat then Some a
  else if ((65 <=? n) && (n <=? 70))%nat then Some (ascii_of_nat (n + 32))
  else None.

Fixpoint hexDigits (s : string) : option string :=
  match s with
  | EmptyString => Some EmptyString
  | String a s' =>
      match hexDigit a, hexDigits s' with
      | Some d, Some ds => Some (String d ds)
      | _, _ => None
      end
  end.

Definition castHex24 (id : string) : option string :=
  if (Js.length id =? 24)%nat then hexDigits id else None.

(** The validation of the samples: the role of each member is one of the
    enum of [TeamSchema], and the other paths are in order. *)
Definition validateRoles (oid : string) (team : Team) : option string :=
  if forallb (fun m => String.eqb (role m) "admin" || String.eqb (role m) "member"
                       || String.eqb (role m) "viewer") (members team)
  then None else Some "members.role".

(** A team owned by [user1], who is entered as an admin, with an ordinary
    member [user2]. *)
Definition sampleTeam : Team :=
  {| teamName := "Support"; owner := user1;
     members := [{| user := Some user1; role := "admin" |};
                 {| user := Some user2; role := "member" |}] |}.

Definition teamDb : Db :=
  {| companies := ∅; contexts := []; teams := {[ team1 := sampleTeam ]} |}.

(** ** controllers/companyController.js: the other handlers *)

Definition getCompanyById (cid : string) : world -> Response * world :=
  asyncHandler (
    let* company := Company_findOne cid in
    match company with
    | None => ret (Next (notFound cid))
    | Some company => ret (Json 200 (DataCompany company))
    end).

Record StatusBody := {
  body_status : option string
}.

(** [['in_progress', 'completed', 'failed'].includes(status)], with the
    value of the schema's enum. *)
Definition statusOf (status : string) : option TrainingStatus :=
  if String.eqb status "in_progress" then Some in_progress
  else if String.eqb status "completed" then Some completed
  else if String.eqb status "failed" then Some failed
  else None.

Definition setTrainingStatus (st : TrainingStatus) (c : Company) : Company :=
  {| companyId := companyId c; name := name c; documentName := documentName c;
     documentContext := documentContext c; trainingStatus := st;
     chatbotUrl := chatbotUrl c |}.

Definition updateTrainingStatus (cid : string) (body : StatusBody)
  : world -> Response * world :=
  asyncHandler (
    match (if Js.truthy (body_status body)
           then statusOf (Js.str (body_status body)) else None) with
    | None =>
        ret (Next (createError
          "Please provide a valid training status (in_progress, completed, failed)"
          400))
    | Some st =>
        let* company := await (fun db =>
          (setTrainingStatus st <$> companies db !! cid,
           setCompanies (alter (setTrainingStatus st) cid) db)) in
        match company with
        | None => ret (Next (notFound cid))
        | Some company => ret (Json 200 (DataCompany company))
        end
    end).

Record SummaryBody := {
  body_userId : option string;
  body_fileName : option string;
  body_summary : option string
}.

(** What [storeSummary] does with the request: the 201 answer with
    [companyId], [chatbotUrl], [fileName] and [summaryLength], or
    [next(err)]. *)
Inductive SummaryResponse :=
| SummaryStored (companyId chatbotUrl fileName : string) (summaryLength : nat)
| SummaryNext (e : error).

(** [Company.create] on a collection that may hold the key already: the
    unique index on [companyId] refuses a second document. *)
Definition Company_createUnique (c : Company) : M Company :=
  match Company_validate c with
  | Some path => raise (ValidationError path)
  | None =>
      let* inserted := await (fun db =>
        match companies db !! companyId c with
        | Some _ => (false, db)
        | None => (true, setCompanies (insert (companyId c) c) db)
        end) in
      if inserted : bool then ret c else raise DriverError
  end.

(** The id [storeSummary] makes of the user, the clock (milliseconds) and
    the random string. *)
Definition summaryCompanyId (userId : string) (timestamp : N)
  (randomString : string) : string :=
  userId ++ "-" ++ pretty timestamp ++ "-" ++ randomString.

(** [timestamp] is [new Date().getTime()] and [randomString] is
    [Math.random().toString(36).substring(2, 8)]. *)
Definition storeSummary (timestamp : N) (randomString : string)
  (body : SummaryBody) : world -> SummaryResponse * world :=
  settle (
    if negb (Js.truthy (body_userId body)) || negb (Js.truthy (body_fileName body))
       || negb (Js.truthy (body_summary body))
    then ret (SummaryNext (createError
           "Please provide userId, fileName, and summary" 400))
    else
      let fileName := Js.str (body_fileName body) in
      let summary := Js.str (body_summary body) in
      let companyId :=
        summaryCompanyId (Js.str (body_userId body)) timestamp randomString in
      let chatbotUrl := "/chatbot/summary/" ++ companyId in
      startSession ;;
      tryTransaction
        (Company_createUnique
           (Company_cast companyId fileName (Some fileName) summary completed
              chatbotUrl) ;;
         CompanyContext_create
           {| company_id := companyId; context := summary;
              version := 1; isActive := true |} ;;
         commitTransaction ;;
         ret (SummaryStored companyId chatbotUrl fileName (Js.length summary)))
        (fun error => abortTransaction ;; ret (SummaryNext error)))
    SummaryNext.

(** A store in which the [documentContext] of every company is the text of
    its one active version record. *)
Definition synced (db : Db) : Prop :=
  ∀ cid company,
    companies db !! cid = Some company →
    ∃ r, activeOf cid db = [r] ∧ context r = documentContext company.

(** The store a committed [storeSummary] leaves. *)
Definition summaryStored (timestamp : N) (randomString : string)
  (body : SummaryBody) (db : Db) : Db :=
  let fileName := Js.str (body_fileName body) in
  let summary := Js.str (body_summary body) in
  let cid := summaryCompanyId (Js.str (body_userId body)) timestamp randomString in
  {| companies :=
       <[cid := Company_cast cid fileName (Some fileName) summary completed
                  ("/chatbot/summary/" ++ cid)]> (companies db);
     contexts := (contexts db ++
       [{| company_id := cid; context := summary; version := 1;
           isActive := true |}])%list;
     teams := teams db |}.

(** ** controllers/teams.js: the other member and team handlers *)

Module TeamsMore.

Import Teams.

(** [['member', 'admin'].includes(role)] *)
Definition validRole (role : string) : bool :=
  String.eqb role "member" || String.eqb role "admin".

Definition invalidRole : error :=
  createError "Role must be one of: member, admin" 400.

(** [member.role = role] *)
Definition setRole (role : string) (m : Member) : Member :=
  {| user := user m; role := role |}.

Section WithMongoose.

Context (castObjectId : string -> option string).
Context (validateTeam : string -> Team -> option string).

(** [users] is the [User] collection by its unique [email], with the
    [_id] of each user. *)
Definition addTeamMember (users : gmap string string)
  (teamId callerId : string) (email role : option string)
  : world -> Response * world :=
  settle (tryCatch (
    if negb (Js.truthy email) then
      ret (Next (createError "Please provide member email" 400))
    else if Js.truthy role && negb (validRole (Js.str role)) then
      ret (Next invalidRole)
    else
      let* team := Team_findById castObjectId teamId in
      match team with
      | None => ret (Next (createError "Team not found" 404))
      | Some (oid, team) =>
          let* userMember := sync (find callerId (members team)) in
          if negb (authorized userMember) then
            ret (Next (createError "Not authorized to add members" 403))
          else
            let* userToAdd := await (fun db => (users !! Js.str email, db)) in
            match userToAdd with
            | None => ret (Next (createError "User not found" 404))
            | Some userToAdd =>
                let* isAlreadyMember := sync (find userToAdd (members team)) in
                match isAlreadyMember with
                | Some _ =>
                    ret (Next (createError "User is already a team member" 400))
                | None =>
                    let saved :=
                      setMembers
                        (members team ++
                         [{| user := Some userToAdd;
                             role := if Js.truthy role then Js.str role
                                     else "member" |}])%list team in
                    Team_save validateTeam oid saved ;;
                    ret (Json 200 (DataTeam saved))
                end
            end
      end)
    (fun err => ret (Next err))) Next.

(** The handler assigns [role] to the entry that [members.find] returned;
    the entry is located here by its index. *)
Definition updateMemberRole (teamId callerId targetId : string)
  (role : option string) : world -> Response * world :=
  settle (tryCatch (
    if negb (Js.truthy role) || negb (validRole (Js.str role)) then
      ret (Next invalidRole)
    else
      let* team := Team_findById castObjectId teamId in
      match team with
      | None => ret (Next (createError "Team not found" 404))
      | Some (oid, team) =>
          if negb (String.eqb (owner team) callerId) then
            ret (Next (createError
                   "Only the team owner can update member roles" 403))
          else if String.eqb (owner team) targetId then
            ret (Next (createError "Team owner role cannot be changed" 400))
          else
            let* member := sync (findIndex targetId (members team)) in
            match member with
            | None => ret (Next (createError "User is not a team member" 404))
            | Some i =>
                let saved :=
                  setMembers (alter (setRole (Js.str role)) i (members team)) team in
                Team_save validateTeam oid saved ;;
                ret (Json 200 (DataTeam saved))
            end
      end)
    (fun err => ret (Next err))) Next.

Definition deleteTeam (teamId callerId : string) : world -> Response * world :=
  settle (tryCatch (
    let* team := Team_findById castObjectId teamId in
    match team with
    | None => ret (Next (createError "Team not found" 404))
    | Some (oid, team) =>
        if negb (String.eqb (owner team) callerId) then
          ret (Next (createError "Only the team owner can delete the team" 403))
        else
          await (fun db => (tt, setTeams (delete oid) db)) ;;
          ret (Json 200 DataEmpty)
    end)
    (fun err => ret (Next err))) Next.

(** Requests on the members of teams, served one after the other. *)
Inductive MemberRequest :=
| AddMember (teamId callerId : string) (email role : option string)
| RemoveMember (teamId callerId targetId : string)
| UpdateRole (teamId callerId targetId : string) (role : option string).

Definition serveMember (users : gmap string string) (r : MemberRequest)
  : world -> Response * world :=
  match r with
  | AddMember teamId callerId email role =>
      addTeamMember users teamId callerId email role
  | RemoveMember teamId callerId targetId =>
      removeTeamMember castObjectId validateTeam teamId callerId targetId
  | UpdateRole teamId callerId targetId role =>
      updateMemberRole teamId callerId targetId role
  end.

Definition afterMember (users : gmap string string) (db : Db)
  (rf : MemberRequest * option nat) : Db :=
  store (snd (serveMember users (fst rf) {| store := db; fault := snd rf |})).

Definition runMembers (users : gmap string string)
  (h : list (MemberRequest * option nat)) (db : Db) : Db :=
  fold_left (afterMember users) h db.

End WithMongoose.

(** The team exists, is owned by [o], and has the membership entry [m] of
    its owner. *)
Definition ownerKept (teamId o : string) (m : Member) (db : Db) : Prop :=
  ∃ team, teams db !! teamId = Some team
          ∧ owner team = o ∧ user m = Some o ∧ In m (members team).

(** The users of the membership entries of a team. *)
Definition usersOf (team : Team) : list (option string) :=
  map user (members team).

Definition sampleUsers : gmap string string :=
  {[ "ann@example.com" := user3 ]}.

End TeamsMore.

(** A store in which no team has two membership entries of one user. *)
Definition distinctMembers (db : Db) : Prop :=
  ∀ teamId team,
    teams db !! teamId = Some team → NoDup (TeamsMore.usersOf team).

(** ** controllers/teams.js: creating a team *)

Module TeamCreation.








End TeamCreation.

(** ** scripts/migrateCompanyContexts.js *)

Module Migration.

(** The record the migration makes of a company. *)
Definition firstRecord (company : Company) : CompanyContext :=
  {| company_id := companyId company; context := documentContext company;
     version := 1; isActive := true |}.

(** The body of the loop; the answer tells whether a record was created. *)
Definition migrateCompany (company : Company) : M bool :=
  let* existingContext := await (fun db =>
    (head (Query.find (Query.activeOf (companyId company)) (contexts db)), db)) in
  match existingContext with
  | Some _ => ret false
  | None =>
      if negb (String.eqb (documentContext company) "") then
        CompanyContext_create (firstRecord company) ;;
        ret true
      else ret false
  end.

Fixpoint migrateEach (found : list Company) : M unit :=
  match found with
  | [] => ret tt
  | company :: found' => migrateCompany company ;; migrateEach found'
  end.

(** [Company.find({})] answers with the companies in the order in which
    the database keeps them, which the store does not record:
    [naturalOrder] lists the companies of a collection. An error ends the
    loop; it is logged and not passed on. *)
Definition migrateCompanyContexts
  (naturalOrder : gmap string Company -> list Company) : world -> unit * world :=
  settle
    (tryCatch
       (let* found := await (fun db => (naturalOrder (companies db), db)) in
        migrateEach found)
       (fun error => ret tt))
    (fun _ => tt).

(** An order lists the documents of a collection, each once. *)
Definition listsAll (naturalOrder : gmap string Company -> list Company) : Prop :=
  ∀ m, naturalOrder m ≡ₚ map snd (map_to_list m).

(** The companies by increasing key. *)
Definition byKey (m : gmap string Company) : list Company :=
  map snd (map_to_list m).

End Migration.

(** ** Proof steps for handlers *)

Ltac unfold_handler :=
  unfold asyncHandler, readNewVersion, writeNewVersion, Company_findOne,
    Company_create, CompanyContext_create, startSession, commitTransaction,
    abortTransaction, settle, tryTransaction, tryCatch, bind, ret, raise, sync, await.

Ltac unfold_handler_in H :=
  unfold asyncHandler, readNewVersion, writeNewVersion, Company_findOne,
    Company_create, CompanyContext_create, startSession, commitTransaction,
    abortTransaction, settle, tryTransaction, tryCatch, bind, ret, raise, sync,
    await in H.

Arguments Company_validate : simpl never.
Arguments CompanyContext_validate : simpl never.

(** Case analysis on whether the oracle points at the next database call. *)
Ltac first_call f := destruct f as [[|f]|]; simpl.
Ltac later_call f := destruct f as [|f]; simpl.

Lemma eqb_empty_false (s : string) : s ≠ "" → String.eqb s "" = false.
Proof. apply String.eqb_neq. Qed.

(** Decide the emptiness tests on strings known not to be empty. *)
Ltac nonempty :=
  repeat match goal with
    | H : ?s ≠ "" |- context [String.eqb ?s ""] => rewrite (eqb_empty_false s H)
    end.

(** ** Queries *)

Section QueryFacts.

Implicit Types (l : list CompanyContext) (c : CompanyContext).
Implicit Types (q : CompanyContext → bool) (cid : string).

Lemma find_app q l l' :
  Query.find q (l ++ l')%list = (Query.find q l ++ Query.find q l')%list.
Proof. apply List.filter_app. Qed.

Lemma deactivate_version q c : version (Query.deactivate q c) = version c.
Proof. unfold Query.deactivate. by destruct (q c). Qed.

Lemma deactivate_company q c : company_id (Query.deactivate q c) = company_id c.
Proof. unfold Query.deactivate. by destruct (q c). Qed.

Lemma byCompany_deactivate q cid c :
  Query.byCompany cid (Query.deactivate q c) = Query.byCompany cid c.
Proof. unfold Query.byCompany. by rewrite deactivate_company. Qed.

(** [updateMany] keeps the records of every company, in order, and their
    version numbers. *)
Lemma find_updateMany_versions q cid l :
  map version (Query.find (Query.byCompany cid) (Query.updateManyInactive q l))
  = map version (Query.find (Query.byCompany cid) l).
Proof.
  induction l as [|c l IH]; simpl; [done|].
  rewrite byCompany_deactivate.
  destruct (Query.byCompany cid c); simpl; [|done].
  by rewrite deactivate_version, IH.
Qed.

Lemma find_updateMany_nil q cid l :
  Query.find (Query.byCompany cid) l = [] →
  Query.find (Query.byCompany cid) (Query.updateManyInactive q l) = [].
Proof.
  intros H. apply (f_equal (map version)) in H.
  rewrite <- (find_updateMany_versions q) in H.
  by destruct (Query.find _ (Query.updateManyInactive q l)).
Qed.

Lemma activeOf_deactivate_same cid c :
  Query.activeOf cid (Query.deactivate (Query.byCompany cid) c) = false.
Proof.
  unfold Query.activeOf, Query.deactivate.
  destruct (Query.byCompany cid c) eqn:E; simpl.
  - apply andb_false_r.
  - by rewrite E.
Qed.

(** After [updateMany] on a company none of its records is active. *)
Lemma active_updateMany_same cid l :
  Query.find (Query.activeOf cid)
    (Query.updateManyInactive (Query.byCompany cid) l) = [].
Proof.
  induction l as [|c l IH]; simpl; [done|].
  by rewrite activeOf_deactivate_same.
Qed.

Lemma byCompany_true cid c : Query.byCompany cid c = true ↔ company_id c = cid.
Proof. unfold Query.byCompany. apply String.eqb_eq. Qed.

(** ... and the records of the other companies are as they were. *)
Lemma active_updateMany_other cid cid' l :
  cid ≠ cid' →
  Query.find (Query.activeOf cid)
    (Query.updateManyInactive (Query.byCompany cid') l)
  = Query.find (Query.activeOf cid) l.
Proof.
  intros Hne. induction l as [|c l IH]; simpl; [done|].
  rewrite IH. unfold Query.deactivate.
  destruct (Query.byCompany cid' c) eqn:E; [|done].
  apply byCompany_true in E.
  unfold Query.activeOf, Query.byCompany; simpl.
  destruct (String.eqb_spec (company_id c) cid); [congruence|done].
Qed.

Lemma newer_fold l b :
  ∃ c, fold_left Query.newer l (Some b) = Some c
       ∧ version c = foldr Z.max (version b) (map version l)
       ∧ (c = b ∨ In c l).
Proof.
  revert b. induction l as [|d l IH]; intros b; simpl.
  { exists b. auto. }
  destruct (Z.ltb_spec (version b) (version d)) as [Hlt|Hge].
  - destruct (IH d) as (c & -> & Hv & Hin). exists c.
    split; [done|]. split; [|destruct Hin; subst; auto].
    rewrite Hv. clear -Hlt. induction (map version l) as [|v vs IHv]; simpl; lia.
  - destruct (IH b) as (c & -> & Hv & Hin). exists c.
    split; [done|]. split; [|destruct Hin; subst; auto].
    rewrite Hv. clear -Hge. induction (map version l) as [|v vs IHv]; simpl; lia.
Qed.

Lemma findOneLatest_nil q l :
  Query.find q l = [] → Query.findOneLatest q l = None.
Proof. unfold Query.findOneLatest. by intros ->. Qed.

Lemma findOneLatest_cons q l d ds :
  Query.find q l = d :: ds →
  ∃ c, Query.findOneLatest q l = Some c
       ∧ version c = foldr Z.max (version d) (map version ds)
       ∧ In c (Query.find q l).
Proof.
  unfold Query.findOneLatest. intros ->. simpl.
  destruct (newer_fold ds d) as (c & Hc & Hv & Hin).
  exists c. repeat split; [done..|]. simpl. destruct Hin; auto.
Qed.

(** The version number [updateCompanyContext] computes is the previous
    maximum plus one. *)
Lemma newVersionOf_previousMax cid db :
  newVersionOf (Query.findOneLatest (Query.byCompany cid) (contexts db))
  = (previousMax cid db + 1)%Z.
Proof.
  unfold previousMax, listMax, versionsOf.
  destruct (Query.find (Query.byCompany cid) (contexts db)) as [|d ds] eqn:E.
  - by rewrite (findOneLatest_nil _ _ E).
  - destruct (findOneLatest_cons _ _ _ _ E) as (c & -> & Hv & _).
    simpl. by rewrite Hv.
Qed.

Lemma foldr_max_bounds (v : Z) (vs : list Z) :
  In (foldr Z.max v vs) (v :: vs)
  ∧ Forall (fun x => (x <= foldr Z.max v vs)%Z) (v :: vs).
Proof.
  induction vs as [|x vs [IHin IHall]]; simpl.
  { split; [auto|]. repeat constructor. lia. }
  apply Forall_cons in IHall as [Hv Hvs].
  split.
  - destruct (Z.max_spec x (foldr Z.max v vs)) as [[_ ->]|[_ ->]];
      simpl in *; tauto.
  - repeat constructor; [lia..|].
    eapply Forall_impl; [exact Hvs|]. simpl. intros; lia.
Qed.

End QueryFacts.

(** ** What each handler does to the store *)

Section HandlerFacts.

Implicit Types (db : Db) (f : option nat) (cid : string).

(** Whatever call throws, [createCompany] leaves the store as it was or
    commits both documents. *)
Lemma createCompany_store body f db :
  let db' := store (snd (createCompany body {| store := db; fault := f |})) in
  db' = db
  ∨ (companies db !! Js.str (body_companyId body) = None ∧ db' = created body db).
Proof.
  unfold createCompany. unfold_handler. simpl.
  destruct (negb _ || _ || _ || _); simpl; [by left|].
  first_call f; [by left| |].
  - destruct (companies db !! _) eqn:E; simpl; [by left|].
    later_call f; [by left|].
    destruct (Company_validate _); simpl.
    { later_call f; by left. }
    later_call f; [by left|].
    destruct (CompanyContext_validate _); simpl.
    { later_call f; by left. }
    later_call f; [by left|]. later_call f; [by left|]. by right.
  - destruct (companies db !! _) eqn:E; simpl; [by left|].
    destruct (Company_validate _); simpl; [by left|].
    destruct (CompanyContext_validate _); simpl; [by left|].
    by right.
Qed.


(** Without a fault, a request with a valid body for an unused
    [companyId] commits and answers 201 with the company. *)
Lemma createCompany_commits cid nm dn text url db :
  cid ≠ "" → Js.trim nm ≠ "" → text ≠ "" → url ≠ "" →
  companies db !! cid = None →
  let body := {| body_companyId := Some cid; body_name := Some nm;
                 body_documentName := dn; body_documentContext := Some text;
                 body_chatbotUrl := Some url |} in
  createCompany body {| store := db; fault := None |}
  = (Json 201 (DataCompany (Company_cast cid nm dn text completed url)),
     {| store := created body db; fault := None |}).
Proof.
  intros Hcid Hnm Htext Hurl Hnone body.
  assert (nm ≠ "") as Hnm' by (intros ->; by apply Hnm).
  unfold createCompany. unfold_handler. subst body. simpl.
  nonempty. simpl. rewrite Hnone. simpl.
  unfold Company_validate, CompanyContext_validate. simpl.
  nonempty. simpl. by nonempty.
Qed.

Lemma updateCompanyContext_store cid body f db :
  let db' := store (snd (updateCompanyContext cid body
                           {| store := db; fault := f |})) in
  db' = db
  ∨ (is_Some (companies db !! cid)
     ∧ db' = contextWritten cid (Js.str (body_context body))
               (newVersionOf (Query.findOneLatest (Query.byCompany cid)
                                (contexts db))) db).
Proof.
  unfold updateCompanyContext. unfold_handler. simpl.
  destruct (negb _); simpl; [by left|].
  first_call f; [by left| |].
  - destruct (companies db !! cid) eqn:E; simpl; [|by left].
    later_call f; [by left|].
    later_call f; [by left|].
    later_call f; [by left|].
    destruct (CompanyContext_validate _); simpl.
    { later_call f; by left. }
    later_call f; [by left|]. later_call f; [by left|].
    later_call f; [by left|]. right. by split.
  - destruct (companies db !! cid) eqn:E; simpl; [|by left].
    destruct (CompanyContext_validate _); simpl; [by left|].
    right. by split.
Qed.

Lemma updateCompanyContext_commits cid text company db :
  cid ≠ "" → text ≠ "" → companies db !! cid = Some company →
  let v := newVersionOf (Query.findOneLatest (Query.byCompany cid)
                           (contexts db)) in
  updateCompanyContext cid {| body_context := Some text |}
    {| store := db; fault := None |}
  = (Json 200 (DataUpdated (companyId company) (name company) text v true),
     {| store := contextWritten cid text v db; fault := None |}).
Proof.
  intros Hcid Htext Hsome v.
  unfold updateCompanyContext. unfold_handler. simpl.
  nonempty. simpl. rewrite Hsome. simpl.
  unfold CompanyContext_validate. simpl.
  by nonempty.
Qed.


End HandlerFacts.

(** ** Lists of version numbers *)

Section VersionLists.

Implicit Types (vs : list Z) (v : Z) (n : nat).












End VersionLists.

(** ** Invariants of the store along a history *)

Section Invariants.

Implicit Types (db : Db) (cid : string) (h : list (Request * option nat)).

Lemma records_created body db cid :
  Query.find (Query.byCompany cid) (contexts (created body db))
  = (Query.find (Query.byCompany cid) (contexts db) ++
     if String.eqb (Js.str (body_companyId body)) cid
     then [{| company_id := Js.str (body_companyId body);
              context := Js.str (body_documentContext body);
              version := 1; isActive := true |}]
     else [])%list.
Proof. simpl. by rewrite find_app. Qed.

Lemma active_created body db cid :
  activeOf cid (created body db)
  = (activeOf cid db ++
     if String.eqb (Js.str (body_companyId body)) cid
     then [{| company_id := Js.str (body_companyId body);
              context := Js.str (body_documentContext body);
              version := 1; isActive := true |}]
     else [])%list.
Proof.
  unfold activeOf. simpl. rewrite find_app. simpl.
  unfold Query.activeOf at 2, Query.byCompany. simpl.
  by destruct (String.eqb _ cid).
Qed.



Lemma active_contextWritten cid0 ctx v db cid :
  activeOf cid (contextWritten cid0 ctx v db)
  = if String.eqb cid0 cid
    then [{| company_id := cid0; context := ctx; version := v; isActive := true |}]
    else activeOf cid db.
Proof.
  unfold activeOf. simpl. rewrite find_app. simpl.
  unfold Query.activeOf at 2, Query.byCompany. simpl.
  destruct (String.eqb_spec cid0 cid) as [->|Hne]; simpl.
  - by rewrite active_updateMany_same.
  - rewrite app_nil_r. apply active_updateMany_other. congruence.
Qed.

Lemma active_among_records cid (l : list CompanyContext) :
  Query.find (Query.byCompany cid) l = [] →
  Query.find (Query.activeOf cid) l = [].
Proof.
  induction l as [|c l IH]; simpl; [done|].
  unfold Query.activeOf at 1.
  destruct (Query.byCompany cid c); simpl; [done|]. apply IH.
Qed.

Lemma consistent_empty : consistent emptyDb.
Proof. intros cid. split; simpl; [done|lia]. Qed.

Lemma consistent_created body db :
  consistent db → companies db !! Js.str (body_companyId body) = None →
  consistent (created body db).
Proof.
  intros Hdb Hnone cid. destruct (Hdb cid) as (Hrec & Hact).
  rewrite records_created, active_created.
  destruct (String.eqb_spec (Js.str (body_companyId body)) cid) as [<-|Hne].
  - specialize (Hrec Hnone). split.
    + simpl. rewrite lookup_insert_eq. done.
    + unfold activeOf. rewrite (active_among_records _ _ Hrec). simpl. lia.
  - rewrite !app_nil_r. split; [|done].
    simpl. rewrite lookup_insert_ne by done. apply Hrec.
Qed.

Lemma consistent_contextWritten cid0 ctx v db :
  consistent db → is_Some (companies db !! cid0) →
  consistent (contextWritten cid0 ctx v db).
Proof.
  intros Hdb [c Hc] cid. destruct (Hdb cid) as (Hrec & Hact).
  rewrite active_contextWritten.
  destruct (String.eqb_spec cid0 cid) as [<-|Hne].
  - split; [|simpl; lia].
    simpl. rewrite lookup_alter_eq, Hc. done.
  - split; [|done].
    simpl. rewrite lookup_alter_ne by done. intros Hnone.
    rewrite find_app, find_updateMany_nil by auto.
    simpl. unfold Query.byCompany. simpl.
    by destruct (String.eqb_spec cid0 cid).
Qed.

(** Serving a creation or an update keeps the store consistent, whatever
    call fails. *)
Lemma consistent_after db rf :
  consistent db → isDelete rf = false → consistent (after db rf).
Proof.
  intros Hdb Hnd. destruct rf as [[body|cid body|cid] f]; [| |done];
    unfold after; simpl.
  - destruct (createCompany_store body f db) as [->|[Hnone ->]]; [done|].
    by apply consistent_created.
  - destruct (updateCompanyContext_store cid body f db) as [->|[Hsome ->]];
      [done|]. by apply consistent_contextWritten.
Qed.

Lemma consistent_run h db :
  consistent db → noDelete h = true → consistent (run h db).
Proof.
  revert db. induction h as [|rf h IH]; intros db Hdb Hnd; simpl; [done|].
  simpl in Hnd. apply andb_true_iff in Hnd as [Hrf Hh].
  apply IH; [|done]. apply consistent_after; [done|]. by apply negb_true_iff.
Qed.






End Invariants.

(** ** Reading the context *)

Section Reading.

Implicit Types (db : Db) (cid : string).

(** Without a fault, [getCompanyContext] answers from the company record
    and the latest active version record. *)
Lemma getCompanyContext_run cid db :
  getCompanyContext cid {| store := db; fault := None |}
  = (match companies db !! cid with
     | None => Next (notFound cid)
     | Some company =>
         match Query.findOneLatest (Query.activeOf cid) (contexts db) with
         | None =>
             if String.eqb (documentContext company) ""
             then Next (createError
                    ("No context available for company with ID " ++ cid) 404)
             else Json 200 (DataContext (companyId company) (name company)
                    (documentContext company) 1 "company_fallback")
         | Some latest =>
             Json 200 (DataContext (companyId company) (name company)
               (context latest) (version latest) "context_collection")
         end
     end, {| store := db; fault := None |}).
Proof.
  unfold getCompanyContext. unfold_handler. simpl.
  destruct (companies db !! cid) as [company|]; simpl; [|done].
  destruct (Query.findOneLatest _ _); simpl; [done|].
  by destruct (String.eqb _ _).
Qed.

Lemma alter_lookup_Some {A} (g : A → A) (m : gmap string A) (i : string) (x : A) :
  m !! i = Some x → alter g i m = <[i := g x]> m.
Proof.
  intros Hx. apply map_eq. intros j. destruct (decide (i = j)) as [<-|Hne].
  - by rewrite lookup_alter_eq, lookup_insert_eq, Hx.
  - by rewrite lookup_alter_ne, lookup_insert_ne.
Qed.

(** The read of a company with active records is answered from the
    versioned collection. *)
Lemma active_read (cid : string) (company : Company) (db : Db) :
  companies db !! cid = Some company → activeOf cid db ≠ [] →
  ∃ text v,
    fst (getCompanyContext cid {| store := db; fault := None |})
    = Json 200 (DataContext (companyId company) (name company) text v
                  "context_collection").
Proof.
  intros Hsome Hne. rewrite getCompanyContext_run, Hsome. unfold activeOf in *.
  destruct (Query.find (Query.activeOf cid) (contexts db)) as [|d ds] eqn:E;
    [done|].
  destruct (findOneLatest_cons _ _ _ _ E) as (c & -> & _ & _). eauto.
Qed.

End Reading.

(** ** The single active version *)

(** C1. Serving any sequence of [createCompany] and [updateCompanyContext]
    requests one after the other, whatever calls fail on the way, leaves
    every company with at most one version record marked active. The
    sequence starts from a store in which every version record belongs to
    an existing company and no company has two active records; the empty
    store is one. *)
Theorem single_active_version
  (h : list (Request * option nat)) (db : Db) (cid : string) :
  consistent db → noDelete h = true →
  (List.length (activeOf cid (run h db)) ≤ 1)%nat.
Proof.
  intros Hdb Hnd. by destruct (consistent_run h db Hdb Hnd cid) as [_ H].
Qed.

Lemma single_active_version_witness :
  consistent emptyDb ∧ noDelete scenario = true
  ∧ (List.length (activeOf "c1" (run scenario emptyDb)) ≤ 1)%nat.
Proof.
  split; [exact consistent_empty|]. split; [reflexivity|].
  apply (single_active_version scenario emptyDb "c1");
    [exact consistent_empty|reflexivity].
Defined.

(** ** The steps of a context update *)



(** ** Version numbers along a history *)




(** ** Creating a company and reading its context *)

(** C5. Creating a company under an id that no company and no version
    record carries yet, with context X, and then reading its context
    returns X with version 1 from the versioned collection. *)
Theorem create_then_read
  (cid nm : string) (dn : option string) (text url : string) (db : Db) :
  cid ≠ "" → Js.trim nm ≠ "" → text ≠ "" → url ≠ "" →
  companies db !! cid = None →
  Query.find (Query.byCompany cid) (contexts db) = [] →
  let body := {| body_companyId := Some cid; body_name := Some nm;
                 body_documentName := dn; body_documentContext := Some text;
                 body_chatbotUrl := Some url |} in
  let (r, w) := createCompany body {| store := db; fault := None |} in
  r = Json 201 (DataCompany (Company_cast cid nm dn text completed url))
  ∧ fst (getCompanyContext cid {| store := store w; fault := None |})
    = Json 200 (DataContext cid (Js.trim nm) text 1 "context_collection").
Proof.
  intros Hcid Hnm Htext Hurl Hnone Hrec body.
  subst body. rewrite createCompany_commits by done.
  split; [done|]. simpl store. rewrite getCompanyContext_run. simpl.
  rewrite lookup_insert_eq. unfold Query.findOneLatest.
  rewrite find_app, (active_among_records _ _ Hrec). simpl.
  unfold Query.activeOf, Query.byCompany. simpl.
  by rewrite String.eqb_refl.
Qed.

Lemma create_then_read_witness :
  let body := {| body_companyId := Some "c1";
                 body_name := Some (" Acme" ++ nbsp);
                 body_documentName := None; body_documentContext := Some "X";
                 body_chatbotUrl := Some "/c1" |} in
  let (r, w) := createCompany body {| store := emptyDb; fault := None |} in
  fst (getCompanyContext "c1" {| store := store w; fault := None |})
  = Json 200 (DataContext "c1" "Acme" "X" 1 "context_collection").
Proof.
  pose proof (create_then_read "c1" (" Acme" ++ nbsp) None "X" "/c1" emptyDb)
    as H.
  cbv zeta in *. destruct (createCompany _ _) as [r w].
  destruct H as [_ H];
    [discriminate|vm_compute; discriminate|discriminate|discriminate
    |reflexivity|reflexivity|].
  rewrite H. reflexivity.
Defined.

(** The id has to be unused by version records too: the records of a
    deleted company stay, and a company created again under its id reads
    the latest of the old active records. *)
Lemma recreated_company_reads_old_context :
  fst (getCompanyContext "c1"
         {| store := run [(CreateCompany (acme "c1" "A"), None);
                          (UpdateCompanyContext "c1" (newText "B"), None);
                          (DeleteCompany "c1", None);
                          (CreateCompany (acme "c1" "X"), None)] emptyDb;
            fault := None |})
  = Json 200 (DataContext "c1" "Acme" "B" 2 "context_collection").
Proof. vm_compute. reflexivity. Qed.

(** ** The fallback read *)

(** C6. When a company has no active version record, in particular no
    version record at all, reading its context returns the non-empty
    [documentContext] of the company record with version 1 and source
    [company_fallback]; when the company record is missing or its
    [documentContext] is empty the read fails with a 404 error. *)
Theorem getCompanyContext_fallback (cid : string) (db : Db) :
  activeOf cid db = [] →
  let r := fst (getCompanyContext cid {| store := db; fault := None |}) in
  (∀ company,
     companies db !! cid = Some company → documentContext company ≠ "" →
     r = Json 200 (DataContext (companyId company) (name company)
                     (documentContext company) 1 "company_fallback"))
  ∧ (companies db !! cid = None
     ∨ (∃ company, companies db !! cid = Some company
                   ∧ documentContext company = "") →
     ∃ message, r = Next (HttpError message 404)).
Proof.
  intros Hact r. subst r. rewrite getCompanyContext_run. simpl.
  unfold activeOf in Hact. rewrite (findOneLatest_nil _ _ Hact). split.
  - intros company -> Hne. by rewrite (eqb_empty_false _ Hne).
  - intros [->|(company & -> & ->)]; simpl; eauto.
Qed.

Lemma getCompanyContext_fallback_witness :
  activeOf "c1" (legacyDb "Y") = []
  ∧ fst (getCompanyContext "c1" {| store := legacyDb "Y"; fault := None |})
    = Json 200 (DataContext "c1" "Acme" "Y" 1 "company_fallback").
Proof.
  split; [reflexivity|].
  apply (proj1 (getCompanyContext_fallback "c1" (legacyDb "Y") eq_refl)
           (legacyCompany "Y")); [vm_compute; reflexivity|discriminate].
Defined.

(** ** Deleting a company *)

(** C10. Deleting an existing company removes the company record and
    nothing else: the version records of the company, the active ones
    among them, stay as they were; reading the context of the company
    afterwards fails with 404. *)
Theorem deleteCompany_keeps_versions (cid : string) (company : Company) (db : Db) :
  companies db !! cid = Some company →
  let (r, w) := deleteCompany cid {| store := db; fault := None |} in
  r = Json 200 DataEmpty
  ∧ companies (store w) = delete cid (companies db)
  ∧ contexts (store w) = contexts db
  ∧ teams (store w) = teams db
  ∧ activeOf cid (store w) = activeOf cid db
  ∧ fst (getCompanyContext cid {| store := store w; fault := None |})
    = Next (createError ("Company with ID " ++ cid ++ " not found") 404).
Proof.
  intros Hsome. unfold deleteCompany. unfold_handler. simpl. rewrite Hsome. simpl.
  repeat split. rewrite getCompanyContext_run. simpl.
  by rewrite lookup_delete_eq.
Qed.

Lemma deleteCompany_keeps_versions_witness :
  let db := run [(CreateCompany (acme "c1" "ctx-v1"), None)] emptyDb in
  let (r, w) := deleteCompany "c1" {| store := db; fault := None |} in
  List.length (activeOf "c1" (store w)) = 1%nat
  ∧ fst (getCompanyContext "c1" {| store := store w; fault := None |})
    = Next (createError "Company with ID c1 not found" 404).
Proof.
  intros db.
  pose proof (deleteCompany_keeps_versions "c1"
    (Company_cast "c1" "Acme" None "ctx-v1" completed "/c1") db) as H.
  destruct (deleteCompany "c1" _) as [r w].
  destruct H as (_ & _ & _ & _ & Hact & Hget); [vm_compute; reflexivity|].
  split; [rewrite Hact; reflexivity|exact Hget].
Defined.

(** ** The context diagnostic *)

Section Diagnostic.

Import CompanyRoutes.

Implicit Types (db : Db) (cid : string) (l : list CompanyContext).

Lemma insertDesc_count (p : CompanyContext → bool) c l :
  List.length (List.filter p (Query.insertDesc c l))
  = List.length (List.filter p (c :: l)).
Proof.
  induction l as [|d l IH]; simpl; [done|].
  destruct (version d <? version c)%Z; simpl; [done|].
  simpl in IH. destruct (p d), (p c); simpl in *; lia.
Qed.

(** Sorting keeps the number of documents that satisfy a test. *)
Lemma sortDesc_count (p : CompanyContext → bool) l :
  List.length (List.filter p (Query.sortDesc l)) = List.length (List.filter p l).
Proof.
  induction l as [|c l IH]; simpl; [done|].
  rewrite insertDesc_count. simpl. destruct (p c); simpl; lia.
Qed.

Lemma insertDesc_length c l :
  List.length (Query.insertDesc c l) = S (List.length l).
Proof.
  induction l as [|d l IH]; simpl; [done|].
  destruct (version d <? version c)%Z; simpl; [done|]. by rewrite IH.
Qed.

Lemma sortDesc_length l : List.length (Query.sortDesc l) = List.length l.
Proof.
  induction l as [|c l IH]; simpl; [done|]. by rewrite insertDesc_length, IH.
Qed.

Lemma active_of_records cid l :
  List.filter isActive (Query.find (Query.byCompany cid) l)
  = Query.find (Query.activeOf cid) l.
Proof.
  induction l as [|c l IH]; simpl; [done|].
  unfold Query.activeOf at 1.
  destruct (Query.byCompany cid c); simpl; [|done].
  destruct (isActive c); by rewrite IH.
Qed.

(** Without a fault and with both models registered, the route answers
    404 for a missing company and 200 with the report for an existing
    one. *)
Lemma contextDiagnostic_run cid db :
  fst (contextDiagnostic (Some (true, true)) cid {| store := db; fault := None |})
  = match companies db !! cid with
    | None =>
        {| status := 404; success := false;
           errorText := Some (Text "Company not found");
           diagnostic := Some (NotExisting cid "Company must be created first") |}
    | Some company =>
        {| status := 200; success := true; errorText := None;
           diagnostic := Some (report cid company
             (Query.sortDesc (Query.find (Query.byCompany cid) (contexts db)))) |}
    end.
Proof.
  unfold contextDiagnostic. unfold_handler. simpl.
  by destruct (companies db !! cid).
Qed.

Lemma length_zero {A} (l : list A) : (List.length l =? 0)%nat = true ↔ l = [].
Proof. destruct l; simpl; split; (done || discriminate). Qed.

(** C7 fails as stated: for a company that does not exist the route
    answers 404, not 200. *)
Lemma contextDiagnostic_missing_is_404 :
  companies emptyDb !! "c1" = None
  ∧ status (fst (contextDiagnostic (Some (true, true)) "c1"
                   {| store := emptyDb; fault := None |})) = 404%Z
  ∧ status (fst (contextDiagnostic (Some (true, true)) "c1"
                   {| store := emptyDb; fault := None |})) ≠ 200%Z.
Proof. repeat split. discriminate. Qed.

(** C7, amended. For a company that does not exist the route answers 404
    with a report that says [exists: false]; the answer is 500 exactly
    when a model is not registered or the company lookup throws, and is
    never 200. *)
Theorem contextDiagnostic_missing_company
  (models : option (bool * bool)) (cid : string) (f : option nat) (db : Db) :
  companies db !! cid = None →
  let r := fst (contextDiagnostic models cid {| store := db; fault := f |}) in
  (models = Some (true, true) → f ≠ Some O →
   r = {| status := 404; success := false;
          errorText := Some (Text "Company not found");
          diagnostic := Some (NotExisting cid "Company must be created first") |}
   ∧ reportsExists r = Some false)
  ∧ (status r = 500%Z ↔ models ≠ Some (true, true) ∨ f = Some O)
  ∧ status r ≠ 200%Z.
Proof.
  intros Hnone r. subst r. unfold contextDiagnostic. unfold_handler.
  destruct models as [[[] []]|]; simpl;
    try (split; [done|]; split; [|done]; split; [left; done|done]).
  first_call f; rewrite ?Hnone; simpl.
  - split; [done|]. split; [|done]. split; [by right|done].
  - split; [done|]. split; [|done]. split; [done|]. intros [|]; done.
  - split; [done|]. split; [|done]. split; [done|]. intros [|]; done.
Qed.

Lemma contextDiagnostic_missing_company_witness :
  companies emptyDb !! "c1" = None
  ∧ reportsExists (fst (contextDiagnostic (Some (true, true)) "c1"
                          {| store := emptyDb; fault := None |})) = Some false.
Proof.
  split; [reflexivity|].
  apply (contextDiagnostic_missing_company (Some (true, true)) "c1" None emptyDb);
    [reflexivity|reflexivity|discriminate].
Defined.

(** C8 fails as stated: a company with a denormalized context of five
    characters and no version record is told to upload a document. *)
Lemma short_context_is_upload_document :
  documentContext (legacyCompany "short") ≠ ""
  ∧ Query.find (Query.byCompany "c1") (contexts (legacyDb "short")) = []
  ∧ suggested (fst (contextDiagnostic (Some (true, true)) "c1"
                      {| store := legacyDb "short"; fault := None |}))
    = Some "UPLOAD_DOCUMENT"
  ∧ suggested (fst (contextDiagnostic (Some (true, true)) "c1"
                      {| store := legacyDb "short"; fault := None |}))
    ≠ Some "CREATE_CONTEXT".
Proof. repeat split; discriminate. Qed.

(** C8, amended. For an existing company the report suggests
    [CREATE_CONTEXT] exactly when the company has no version record and
    the [length] of its [documentContext], in UTF-16 code units, is above
    100, [UPLOAD_DOCUMENT] exactly when it has no version record and that
    length is at most 100, and [FIX_ACTIVE_CONTEXTS] exactly when more
    than one of its version records is active; the answer is 200 in each
    case. *)
Theorem contextDiagnostic_suggestion (cid : string) (company : Company) (db : Db) :
  companies db !! cid = Some company →
  let r := fst (contextDiagnostic (Some (true, true)) cid
                  {| store := db; fault := None |}) in
  let records := Query.find (Query.byCompany cid) (contexts db) in
  status r = 200%Z
  ∧ reportsExists r = Some true
  ∧ (suggested r = Some "CREATE_CONTEXT"
     ↔ records = [] ∧ (100 < Js.length (documentContext company))%nat)
  ∧ (suggested r = Some "UPLOAD_DOCUMENT"
     ↔ records = [] ∧ (Js.length (documentContext company) ≤ 100)%nat)
  ∧ (suggested r = Some "FIX_ACTIVE_CONTEXTS"
     ↔ (1 < List.length (activeOf cid db))%nat).
Proof.
  intros Hsome. cbv zeta. rewrite contextDiagnostic_run, Hsome.
  unfold suggested, reportsExists, report. simpl.
  rewrite sortDesc_count, sortDesc_length, active_of_records.
  fold (activeOf cid db).
  assert (negb (String.eqb (documentContext company) "")
          && (100 <? Js.length (documentContext company))%nat
          = (100 <? Js.length (documentContext company))%nat) as ->
    by (by destruct (documentContext company)).
  pose proof (active_among_records cid (contexts db)) as Hnil.
  fold (activeOf cid db) in Hnil.
  destruct (Query.find (Query.byCompany cid) (contexts db)) as [|c rs]; simpl.
  - rewrite Hnil by done. simpl.
    destruct (Nat.ltb_spec 100 (Js.length (documentContext company)));
      simpl; repeat split; try done; try lia; intros [_ ?]; lia.
  - destruct (Nat.ltb_spec 1 (List.length (activeOf cid db)));
      simpl; repeat split; try done; try lia; intros [? _]; done.
Qed.

Lemma contextDiagnostic_suggestion_witness :
  let text := repeated 51 eAcute in
  companies (legacyDb text) !! "c1" = Some (legacyCompany text)
  ∧ Js.length text = 51%nat
  ∧ suggested (fst (contextDiagnostic (Some (true, true)) "c1"
                      {| store := legacyDb text; fault := None |}))
    = Some "UPLOAD_DOCUMENT".
Proof.
  intros text.
  assert (companies (legacyDb text) !! "c1" = Some (legacyCompany text))
    as Hsome by (vm_compute; reflexivity).
  assert (Js.length text = 51%nat) as Hlen by (vm_compute; reflexivity).
  split; [exact Hsome|]. split; [exact Hlen|].
  apply (contextDiagnostic_suggestion "c1" (legacyCompany text)
           (legacyDb text) Hsome).
  split; [reflexivity|]. simpl documentContext. rewrite Hlen. lia.
Defined.

End Diagnostic.

(** ** Removing the owner of a team *)

Section TeamFacts.

Import Teams.

(** The scan for the entry of [uid] passes the entries of other users. *)
Lemma find_passes (uid : string) (before l : list Member) :
  Forall (fun m => ∃ u, user m = Some u ∧ u ≠ uid) before →
  find uid (before ++ l)%list = find uid l.
Proof.
  induction 1 as [|m before (u & Hu & Hne) _ IH]; simpl; [done|].
  rewrite Hu. by destruct (String.eqb_spec u uid).
Qed.

(** The scan throws nothing but the [TypeError] of an entry without a
    user. *)
Lemma find_raises (uid : string) (l : list Member) (e : error) :
  find uid l = Raise e → e = TypeError.
Proof.
  induction l as [|m l IH]; simpl; [done|].
  destruct (user m) as [u|]; [|by intros [= <-]].
  by destruct (String.eqb u uid).
Qed.

(** What the handler answers when the target is the owner of the team and
    the lookup of the team does not throw. *)
Lemma removeTeamMember_owner_run
  (castObjectId : string → option string)
  (validateTeam : string → Team → option string)
  (teamId callerId oid : string) (team : Team) (f : option nat) (db : Db) :
  castObjectId teamId = Some oid → teams db !! oid = Some team → f ≠ Some O →
  let (r, w) := removeTeamMember castObjectId validateTeam teamId callerId
                  (owner team) {| store := db; fault := f |} in
  r = Next (match find callerId (members team) with
            | Raise e => e
            | Return userMember =>
                if authorized userMember
                then createError "Team owner cannot be removed" 400
                else createError "Not authorized to remove members" 403
            end)
  ∧ store w = db.
Proof.
  intros Hcast Hteam Hf. unfold removeTeamMember, Team_findById.
  rewrite Hcast. unfold_handler.
  first_call f; [done| |]; rewrite Hteam; simpl;
    (destruct (find callerId (members team)) as [um|e]; simpl; [|done];
     destruct (authorized um); simpl; [|done];
     by rewrite String.eqb_refl).
Qed.

(** C9 fails as stated: a caller with role [member] who asks to remove
    the owner is answered 403, not 400. *)
Lemma member_removing_owner_is_403 :
  castHex24 team1 = Some team1
  ∧ teams teamDb !! team1 = Some sampleTeam
  ∧ owner sampleTeam = user1
  ∧ fst (removeTeamMember castHex24 validateRoles team1 user2 user1
           {| store := teamDb; fault := None |})
    = Next (createError "Not authorized to remove members" 403)
  ∧ fst (removeTeamMember castHex24 validateRoles team1 user2 user1
           {| store := teamDb; fault := None |})
    ≠ Next (createError "Team owner cannot be removed" 400).
Proof. repeat split. discriminate. Qed.

(** C9, amended. The team is looked up before the caller's membership is
    evaluated: an id that Mongoose does not cast to an [ObjectId] is
    answered with the [CastError] of the lookup, and, when the lookup does
    not throw, an id of no team with 404, whoever the caller is. A request
    to remove the owner of an existing team is rejected whatever the team,
    the caller and the calls that fail, and leaves the store as it was.
    When the lookup does not throw, the answer is 400, 403 or the
    [TypeError] of the scan of the membership list for the caller's entry:
    400 when the entry is found with role [owner] or [admin]; 403 when it
    is found with another role, or when every entry belongs to another
    user; and the [TypeError], passed on to the error middleware, when an
    entry without a user comes before any entry of the caller. *)
Theorem removeTeamMember_owner
  (castObjectId : string → option string)
  (validateTeam : string → Team → option string)
  (teamId callerId targetId : string) (f : option nat) (db : Db) :
  let (r, w) := removeTeamMember castObjectId validateTeam teamId callerId
                  targetId {| store := db; fault := f |} in
  (castObjectId teamId = None →
   r = Next (CastError teamId) ∧ store w = db)
  ∧ (∀ oid,
       castObjectId teamId = Some oid → teams db !! oid = None → f ≠ Some O →
       r = Next (createError "Team not found" 404) ∧ store w = db)
  ∧ (∀ oid team,
       castObjectId teamId = Some oid → teams db !! oid = Some team →
       targetId = owner team →
       store w = db
       ∧ (∃ e, r = Next e)
       ∧ (f ≠ Some O →
          (r = Next (createError "Team owner cannot be removed" 400)
           ∨ r = Next (createError "Not authorized to remove members" 403)
           ∨ r = Next TypeError)
          ∧ (∀ before m after,
             members team = (before ++ m :: after)%list →
             Forall (fun m' => ∃ u, user m' = Some u ∧ u ≠ callerId) before →
             user m = Some callerId →
             (role m = "owner" ∨ role m = "admin" →
              r = Next (createError "Team owner cannot be removed" 400))
             ∧ (role m ≠ "owner" → role m ≠ "admin" →
                r = Next (createError "Not authorized to remove members" 403)))
          ∧ (Forall (fun m' => ∃ u, user m' = Some u ∧ u ≠ callerId)
               (members team) →
             r = Next (createError "Not authorized to remove members" 403))
          ∧ (∀ before m after,
               members team = (before ++ m :: after)%list →
               Forall (fun m' => ∃ u, user m' = Some u ∧ u ≠ callerId) before →
               user m = None →
               r = Next TypeError))).
Proof.
  destruct (removeTeamMember castObjectId validateTeam teamId callerId
              targetId _) as [r w] eqn:E.
  split; [|split].
  - intros Hcast. unfold removeTeamMember, Team_findById in E.
    rewrite Hcast in E. unfold_handler_in E. by injection E as <- <-.
  - intros oid Hcast Hnone Hf. unfold removeTeamMember, Team_findById in E.
    rewrite Hcast in E. unfold_handler_in E.
    destruct f as [[|f]|]; [done| |]; simpl in E; rewrite Hnone in E;
      simpl in E; by injection E as <- <-.
  - intros oid team Hcast Hteam ->.
    destruct (decide (f = Some O)) as [->|Hf].
    { unfold removeTeamMember, Team_findById in E.
      rewrite Hcast in E. unfold_handler_in E. simpl in E.
      injection E as <- <-. split; [done|]. split; [by eexists|done]. }
    pose proof (removeTeamMember_owner_run castObjectId validateTeam teamId
                  callerId oid team f db Hcast Hteam Hf) as H.
    rewrite E in H. destruct H as [Hr Hw].
    split; [done|]. split; [by eexists|]. intros _.
    split; [|split; [|split]].
    + destruct (find callerId (members team)) as [um|e] eqn:Hfind.
      * destruct (authorized um); auto.
      * apply find_raises in Hfind as ->. auto.
    + intros before m after Hm Hbefore Hcaller.
      rewrite Hm, (find_passes _ _ _ Hbefore) in Hr. simpl in Hr.
      rewrite Hcaller, String.eqb_refl in Hr. simpl in Hr. split.
      * intros [Hrole|Hrole]; rewrite Hrole in Hr; exact Hr.
      * intros Hno Hna.
        rewrite (proj2 (String.eqb_neq _ _) Hno),
          (proj2 (String.eqb_neq _ _) Hna) in Hr. exact Hr.
    + intros Hall. rewrite <- (app_nil_r (members team)) in Hr.
      by rewrite (find_passes _ _ _ Hall) in Hr.
    + intros before m after Hm Hbefore Hnouser.
      rewrite Hm, (find_passes _ _ _ Hbefore) in Hr. simpl in Hr.
      by rewrite Hnouser in Hr.
Qed.

Lemma removeTeamMember_owner_witness :
  castHex24 team1 = Some team1
  ∧ teams teamDb !! team1 = Some sampleTeam
  ∧ removeTeamMember castHex24 validateRoles team1 user1 user1
      {| store := teamDb; fault := None |}
    = (Next (createError "Team owner cannot be removed" 400),
       {| store := teamDb; fault := None |}).
Proof.
  assert (teams teamDb !! team1 = Some sampleTeam) as Hteam
    by (vm_compute; reflexivity).
  split; [reflexivity|]. split; [exact Hteam|].
  pose proof (removeTeamMember_owner castHex24 validateRoles team1 user1 user1
                None teamDb) as H.
  destruct (removeTeamMember castHex24 validateRoles team1 user1 user1 _)
    as [r w] eqn:E.
  destruct H as (_ & _ & H).
  destruct (H team1 sampleTeam eq_refl Hteam eq_refl) as (Hw & _ & Hr).
  assert (@None nat ≠ Some O) as Hno by discriminate.
  destruct (Hr Hno) as (_ & Hfound & _ & _).
  destruct (Hfound [] {| user := Some user1; role := "admin" |}
              [{| user := Some user2; role := "member" |}]
              eq_refl (List.Forall_nil _) eq_refl) as [H400 _].
  rewrite (H400 (or_intror eq_refl)). f_equal.
  destruct w as [st fl]. simpl in Hw. subst st. f_equal.
  vm_compute in E. by injection E as _ <-.
Defined.

End TeamFacts.

(** ** Two concurrent context updates *)

Section ConcurrentFacts.

Import Concurrent.

Implicit Types (db : Db) (cid : string) (body : ContextBody) (ph : Phase).

Lemma validate_no_text cid v :
  CompanyContext_validate
    {| company_id := cid; context := ""; version := v; isActive := true |}
  ≠ None.
Proof. unfold CompanyContext_validate. simpl. by destruct (String.eqb cid ""). Qed.

(** One turn of a request either leaves the store as it was, and then
    answers 200 only if it had done so before, or commits the session:
    the request is answered 200 and the store is the one its three writes
    make. *)
Lemma advance_effect cid body ph f db :
  let (ph', w) := advance cid body ph {| store := db; fault := f |} in
  (store w = db ∧ (succeeded ph' → succeeded ph))
  ∨ (succeeded ph'
     ∧ ∃ text v, body_context body = Some text
                 ∧ store w = contextWritten cid text v db).
Proof.
  assert (∀ e, ¬ succeeded (rejected e)) as Hrej
    by (intros e [d Hd]; discriminate).
  assert (∀ c, ¬ succeeded (Looked c)) as Hlook
    by (intros c [d Hd]; discriminate).
  assert (∀ c v, ¬ succeeded (Versioned c v)) as Hver
    by (intros c v [d Hd]; discriminate).
  destruct ph as [|company|company v|r]; unfold advance; unfold_handler; simpl.
  - destruct (negb _); simpl; [left; split; [done|by intros ?%Hrej]|].
    first_call f; [left; split; [done|by intros ?%Hrej]| |].
    + destruct (companies db !! cid); simpl;
        [|left; split; [done|by intros ?%Hrej]].
      later_call f; left; split; try done; by intros ?%Hrej || intros ?%Hlook.
    + destruct (companies db !! cid); simpl;
        left; split; try done; by intros ?%Hrej || intros ?%Hlook.
  - first_call f; left; split; try done; by intros ?%Hrej || intros ?%Hver.
  - destruct (body_context body) as [text|] eqn:Hbody; simpl.
    + first_call f; [left; split; [done|by intros ?%Hrej]| |].
      * destruct (CompanyContext_validate _); simpl.
        { later_call f; left; split; try done; by intros ?%Hrej. }
        later_call f; [left; split; [done|by intros ?%Hrej]|].
        later_call f; [left; split; [done|by intros ?%Hrej]|].
        later_call f; [left; split; [done|by intros ?%Hrej]|].
        right. split; [by eexists|]. by exists text, v.
      * destruct (CompanyContext_validate _); simpl.
        { left; split; try done; by intros ?%Hrej. }
        right. split; [by eexists|]. by exists text, v.
    + pose proof (validate_no_text cid v) as Hval.
      first_call f; [left; split; [done|by intros ?%Hrej]| |].
      * destruct (CompanyContext_validate _); [|done]. simpl.
        later_call f; left; split; try done; by intros ?%Hrej.
      * destruct (CompanyContext_validate _); [|done]. simpl.
        left; split; try done; by intros ?%Hrej.
  - by left.
Qed.

(** Three turns in a row of one request are the handler. *)
Lemma advance_thrice cid body f db :
  let w := {| store := db; fault := f |} in
  let (p1, w1) := advance cid body Received w in
  let (p2, w2) := advance cid body p1 w1 in
  let (p3, w3) := advance cid body p2 w2 in
  p3 = Responded (fst (updateCompanyContext cid body w))
  ∧ store w3 = store (snd (updateCompanyContext cid body w)).
Proof.
  unfold updateCompanyContext, advance, rejected. unfold_handler. simpl.
  destruct (negb _); simpl; [done|].
  first_call f; [done| |].
  - destruct (companies db !! cid); simpl; [|done].
    later_call f; [done|]. later_call f; [done|]. later_call f; [done|].
    destruct (CompanyContext_validate _); simpl.
    { by later_call f. }
    later_call f; [done|]. later_call f; [done|]. by later_call f.
  - destruct (companies db !! cid); simpl; [|done].
    by destruct (CompanyContext_validate _).
Qed.

(** A turn takes a request one phase further, until it has responded. *)
Lemma advance_progress cid body ph w :
  (Nat.min 3 (S (rank ph)) ≤ rank (fst (advance cid body ph w)))%nat.
Proof.
  destruct w as [db f].
  destruct ph as [|company|company v|r]; unfold advance; unfold_handler; simpl.
  - destruct (negb _); simpl; [lia|].
    first_call f; [lia| |].
    + destruct (companies db !! cid); simpl; [|lia]. later_call f; lia.
    + destruct (companies db !! cid); simpl; lia.
  - first_call f; lia.
  - first_call f; [lia| |].
    + destruct (CompanyContext_validate _); simpl; [later_call f; lia|].
      later_call f; [lia|]. later_call f; [lia|]. later_call f; lia.
    + destruct (CompanyContext_validate _); simpl; lia.
  - lia.
Qed.

Lemma turn_progress cid b1 b2 s t :
  match t with
  | TurnFirst _ =>
      (Nat.min 3 (S (rank (first s))) ≤ rank (first (turn cid b1 b2 s t)))%nat
      ∧ second (turn cid b1 b2 s t) = second s
  | TurnSecond _ =>
      (Nat.min 3 (S (rank (second s))) ≤ rank (second (turn cid b1 b2 s t)))%nat
      ∧ first (turn cid b1 b2 s t) = first s
  end.
Proof.
  destruct t as [f|f]; unfold turn.
  - pose proof (advance_progress cid b1 (first s)
                  {| store := shared s; fault := f |}) as P.
    by destruct (advance cid b1 (first s) _) as [ph w].
  - pose proof (advance_progress cid b2 (second s)
                  {| store := shared s; fault := f |}) as P.
    by destruct (advance cid b2 (second s) _) as [ph w].
Qed.

Lemma interleave_progress cid b1 b2 schedule s :
  let s' := fold_left (turn cid b1 b2) schedule s in
  (Nat.min 3 (rank (first s) + turnsOfFirst schedule) ≤ rank (first s'))%nat
  ∧ (Nat.min 3 (rank (second s) + turnsOfSecond schedule) ≤ rank (second s'))%nat.
Proof.
  revert s. induction schedule as [|t schedule IH]; intros s; cbn [fold_left].
  { unfold turnsOfFirst, turnsOfSecond. cbn [List.filter List.length]. lia. }
  destruct (IH (turn cid b1 b2 s t)) as [H1 H2].
  pose proof (turn_progress cid b1 b2 s t) as P.
  unfold turnsOfFirst, turnsOfSecond in *.
  destruct t as [f|f]; destruct P as [P Q]; cbn [List.filter List.length];
    rewrite Q in *; lia.
Qed.

(** Both requests have responded once each was given three turns. *)
Lemma interleave_responds cid b1 b2 schedule db :
  (3 ≤ turnsOfFirst schedule)%nat → (3 ≤ turnsOfSecond schedule)%nat →
  ∃ r1 r2, first (interleave cid b1 b2 schedule db) = Responded r1
           ∧ second (interleave cid b1 b2 schedule db) = Responded r2.
Proof.
  intros H1 H2. unfold interleave.
  destruct (interleave_progress cid b1 b2 schedule
              {| first := Received; second := Received; shared := db |}) as [P1 P2].
  cbn [first second rank] in P1, P2.
  destruct (first (fold_left _ _ _)) as [| | |r1]; cbn [rank] in P1; try lia.
  destruct (second (fold_left _ _ _)) as [| | |r2]; cbn [rank] in P2; try lia.
  by exists r1, r2.
Qed.

Lemma turn_invariant cid b1 b2 s t :
  (succeeded (first s) ∨ succeeded (second s) → oneActiveOf cid b1 b2 (shared s)) →
  succeeded (first (turn cid b1 b2 s t)) ∨ succeeded (second (turn cid b1 b2 s t)) →
  oneActiveOf cid b1 b2 (shared (turn cid b1 b2 s t)).
Proof.
  intros Hs. destruct t as [f|f]; unfold turn.
  - pose proof (advance_effect cid b1 (first s) f (shared s)) as H.
    destruct (advance cid b1 (first s) _) as [ph w]. simpl.
    destruct H as [[-> Hph]|[_ (text & v & Hb & ->)]].
    + intros [?|?]; apply Hs; auto.
    + intros _. eexists. rewrite active_contextWritten, String.eqb_refl.
      split; [done|]. by left.
  - pose proof (advance_effect cid b2 (second s) f (shared s)) as H.
    destruct (advance cid b2 (second s) _) as [ph w]. simpl.
    destruct H as [[-> Hph]|[_ (text & v & Hb & ->)]].
    + intros [?|?]; apply Hs; auto.
    + intros _. eexists. rewrite active_contextWritten, String.eqb_refl.
      split; [done|]. by right.
Qed.

(** As soon as one of the two requests was answered 200, the company has
    exactly one active record, with the text of one of them. *)
Lemma interleave_invariant cid b1 b2 schedule s :
  (succeeded (first s) ∨ succeeded (second s) → oneActiveOf cid b1 b2 (shared s)) →
  let s' := fold_left (turn cid b1 b2) schedule s in
  succeeded (first s') ∨ succeeded (second s') →
  oneActiveOf cid b1 b2 (shared s').
Proof.
  revert s. induction schedule as [|t schedule IH]; intros s Hs; simpl; [done|].
  apply IH. by apply turn_invariant.
Qed.

(** C3. Two context updates for the same company run concurrently, each
    giving way to the other between its company lookup, its read of the
    latest version and its session. Once both were answered 200, and
    already once one of them was, the company has exactly one active
    version record, and its text is the text of one of the two requests. *)
Theorem concurrent_updates
  (cid : string) (b1 b2 : ContextBody) (schedule : list Turn) (db : Db) :
  let s := interleave cid b1 b2 schedule db in
  succeeded (first s) ∨ succeeded (second s) →
  ∃ c, activeOf cid (shared s) = [c]
       ∧ (body_context b1 = Some (context c) ∨ body_context b2 = Some (context c)).
Proof.
  intros s Hs.
  apply (interleave_invariant cid b1 b2 schedule
           {| first := Received; second := Received; shared := db |}); [|done].
  intros [[d Hd]|[d Hd]]; discriminate.
Qed.

Lemma concurrent_updates_witness :
  let db := run [(CreateCompany (acme "c1" "ctx-v1"), None)] emptyDb in
  let s := interleave "c1" (newText "A") (newText "B") (alternate None) db in
  first s = Responded (Json 200 (DataUpdated "c1" "Acme" "A" 2 true))
  ∧ second s = Responded (Json 200 (DataUpdated "c1" "Acme" "B" 2 true))
  ∧ ∃ c, activeOf "c1" (shared s) = [c]
         ∧ (body_context (newText "A") = Some (context c)
            ∨ body_context (newText "B") = Some (context c)).
Proof.
  intros db s.
  assert (first s = Responded (Json 200 (DataUpdated "c1" "Acme" "A" 2 true)))
    as H1 by (vm_compute; reflexivity).
  assert (second s = Responded (Json 200 (DataUpdated "c1" "Acme" "B" 2 true)))
    as H2 by (vm_compute; reflexivity).
  split; [exact H1|]. split; [exact H2|].
  apply (concurrent_updates "c1" (newText "A") (newText "B") (alternate None) db).
  left. eexists. exact H1.
Defined.

(** The read of the latest version is outside the session: when both
    requests read before either commits, both write the same number. *)
Lemma stale_read_shares_a_version :
  versionsOf "c1"
    (shared (interleave "c1" (newText "A") (newText "B") (alternate None)
               (run [(CreateCompany (acme "c1" "ctx-v1"), None)] emptyDb)))
  = [1%Z; 2%Z; 2%Z].
Proof. vm_compute. reflexivity. Qed.

End ConcurrentFacts.

(** ** More on the company handlers *)

Section CompanyMore.

Implicit Types (db : Db) (f : option nat) (cid : string).

Ltac unfold_company :=
  unfold getCompanyById, updateTrainingStatus, storeSummary, Company_createUnique;
  unfold_handler.

(** X1. A context update that commits is what the next read returns: the
    new text, the new version number, from the versioned collection. *)
Theorem update_then_read (cid text : string) (company : Company) (db : Db) :
  cid ≠ "" → text ≠ "" → companies db !! cid = Some company →
  let (r, w) := updateCompanyContext cid {| body_context := Some text |}
                  {| store := db; fault := None |} in
  r = Json 200 (DataUpdated (companyId company) (name company) text
                  (previousMax cid db + 1) true)
  ∧ fst (getCompanyContext cid {| store := store w; fault := None |})
    = Json 200 (DataContext (companyId company) (name company) text
                  (previousMax cid db + 1) "context_collection").
Proof.
  intros Hcid Htext Hsome.
  rewrite (updateCompanyContext_commits cid text company db Hcid Htext Hsome).
  rewrite newVersionOf_previousMax. split; [done|].
  cbn [store]. rewrite getCompanyContext_run.
  unfold contextWritten. cbn [companies contexts].
  rewrite lookup_alter_eq, Hsome. cbn [fmap option_fmap option_map].
  unfold Query.findOneLatest.
  rewrite find_app, active_updateMany_same. simpl.
  unfold Query.activeOf, Query.byCompany. simpl.
  by rewrite String.eqb_refl.
Qed.

Lemma update_then_read_witness :
  let (r, w) := updateCompanyContext "c1" (newText "ctx-v2")
                  {| store := run [(CreateCompany (acme "c1" "ctx-v1"), None)] emptyDb;
                     fault := None |} in
  fst (getCompanyContext "c1" {| store := store w; fault := None |})
  = Json 200 (DataContext "c1" "Acme" "ctx-v2" 2 "context_collection").
Proof.
  pose proof (update_then_read "c1" "ctx-v2"
    (Company_cast "c1" "Acme" None "ctx-v1" completed "/c1")
    (run [(CreateCompany (acme "c1" "ctx-v1"), None)] emptyDb)) as H.
  unfold newText.
  destruct (updateCompanyContext "c1" _ _) as [r w].
  apply H; [discriminate|discriminate|vm_compute; reflexivity].
Defined.

(** X2. When a company has active version records, the read answers with
    one of them that has the highest version number among them, and does
    not look at [documentContext]. *)
Theorem getCompanyContext_latest_active (cid : string) (company : Company) (db : Db) :
  companies db !! cid = Some company → activeOf cid db ≠ [] →
  ∃ latest,
    In latest (activeOf cid db)
    ∧ (∀ c, In c (activeOf cid db) → (version c <= version latest)%Z)
    ∧ fst (getCompanyContext cid {| store := db; fault := None |})
      = Json 200 (DataContext (companyId company) (name company)
                    (context latest) (version latest) "context_collection").
Proof.
  intros Hsome Hne. rewrite getCompanyContext_run, Hsome. unfold activeOf in *.
  destruct (Query.find (Query.activeOf cid) (contexts db)) as [|d ds] eqn:E;
    [done|].
  destruct (findOneLatest_cons _ _ _ _ E) as (c & -> & Hv & Hin).
  exists c. rewrite E in Hin. split; [done|]. split; [|done].
  intros c' Hc'. rewrite Hv.
  destruct (foldr_max_bounds (version d) (map version ds)) as [_ Hall].
  rewrite List.Forall_forall in Hall. apply Hall.
  change (In (version c') (map version (d :: ds))). by apply in_map.
Qed.

Lemma getCompanyContext_latest_active_witness :
  let db := run [(CreateCompany (acme "c1" "A"), None);
                 (UpdateCompanyContext "c1" (newText "B"), None);
                 (DeleteCompany "c1", None);
                 (CreateCompany (acme "c1" "X"), None)] emptyDb in
  List.length (activeOf "c1" db) = 2%nat
  ∧ ∃ latest,
      In latest (activeOf "c1" db)
      ∧ (∀ c, In c (activeOf "c1" db) → (version c <= version latest)%Z)
      ∧ fst (getCompanyContext "c1" {| store := db; fault := None |})
        = Json 200 (DataContext "c1" "Acme" (context latest) (version latest)
                      "context_collection").
Proof.
  intros db. split; [vm_compute; reflexivity|].
  apply (getCompanyContext_latest_active "c1"
           (Company_cast "c1" "Acme" None "X" completed "/c1") db);
    [vm_compute; reflexivity|discriminate].
Defined.

(** X3. Whatever call throws, [createCompany] answers 201 and has stored the
    company with its first version record, or passes an error on and has
    stored nothing; it never stores one of the two documents alone, and
    never replaces a company that exists. *)
Lemma createCompany_outcome body f db :
  let (r, w) := createCompany body {| store := db; fault := f |} in
  (r = Json 201 (DataCompany
         (Company_cast (Js.str (body_companyId body)) (Js.str (body_name body))
            (body_documentName body) (Js.str (body_documentContext body))
            completed (Js.str (body_chatbotUrl body))))
   ∧ store w = created body db
   ∧ companies db !! Js.str (body_companyId body) = None)
  ∨ (∃ e, r = Next e ∧ store w = db).
Proof.
  unfold createCompany. unfold_handler. simpl.
  destruct (negb _ || _ || _ || _); simpl; [right; eauto|].
  first_call f; [right; eauto| |].
  - destruct (companies db !! _) eqn:E; simpl; [right; eauto|].
    later_call f; [right; eauto|].
    destruct (Company_validate _); simpl.
    { later_call f; right; eauto. }
    later_call f; [right; eauto|].
    destruct (CompanyContext_validate _); simpl.
    { later_call f; right; eauto. }
    later_call f; [right; eauto|]. later_call f; [right; eauto|]. by left.
  - destruct (companies db !! _) eqn:E; simpl; [right; eauto|].
    destruct (Company_validate _); simpl; [right; eauto|].
    destruct (CompanyContext_validate _); simpl; [right; eauto|].
    by left.
Qed.

(** X4. Whatever call throws, [updateCompanyContext] answers 200 and has made
    its three writes, or passes an error on and has changed nothing: the
    old records are never left deactivated without the new one. *)
Lemma updateCompanyContext_outcome cid body f db :
  let (r, w) := updateCompanyContext cid body {| store := db; fault := f |} in
  (∃ company,
     companies db !! cid = Some company
     ∧ r = Json 200 (DataUpdated (companyId company) (name company)
                       (Js.str (body_context body)) (previousMax cid db + 1) true)
     ∧ store w = contextWritten cid (Js.str (body_context body))
                   (previousMax cid db + 1) db)
  ∨ (∃ e, r = Next e ∧ store w = db).
Proof.
  rewrite <- newVersionOf_previousMax.
  unfold updateCompanyContext. unfold_handler. simpl.
  destruct (negb _); simpl; [right; eauto|].
  first_call f; [right; eauto| |].
  - destruct (companies db !! cid) as [company|] eqn:E; simpl; [|right; eauto].
    later_call f; [right; eauto|].
    later_call f; [right; eauto|].
    later_call f; [right; eauto|].
    destruct (CompanyContext_validate _); simpl.
    { later_call f; right; eauto. }
    later_call f; [right; eauto|]. later_call f; [right; eauto|].
    later_call f; [right; eauto|]. left. by exists company.
  - destruct (companies db !! cid) as [company|] eqn:E; simpl; [|right; eauto].
    destruct (CompanyContext_validate _); simpl; [right; eauto|].
    left. by exists company.
Qed.

(** X5. A creation request that lacks one of [companyId], [name],
    [documentContext] and [chatbotUrl], or has it empty, is answered 400
    before any database call; a complete request for an id that is taken
    is answered 400 as well. Both leave the store as it was. *)
Lemma createCompany_rejects body f db :
  let (r, w) := createCompany body {| store := db; fault := f |} in
  (Js.truthy (body_companyId body) && Js.truthy (body_name body)
   && Js.truthy (body_documentContext body) && Js.truthy (body_chatbotUrl body)
   = false →
   r = Next (createError
         "Please provide companyId, name, documentContext, and chatbotUrl" 400)
   ∧ w = {| store := db; fault := f |})
  ∧ (Js.truthy (body_companyId body) && Js.truthy (body_name body)
     && Js.truthy (body_documentContext body) && Js.truthy (body_chatbotUrl body)
     = true →
     f ≠ Some O → is_Some (companies db !! Js.str (body_companyId body)) →
     r = Next (createError
           ("Company with ID " ++ Js.str (body_companyId body) ++ " already exists")
           400)
     ∧ store w = db).
Proof.
  unfold createCompany. unfold_handler. simpl.
  destruct (Js.truthy (body_companyId body)), (Js.truthy (body_name body)),
    (Js.truthy (body_documentContext body)), (Js.truthy (body_chatbotUrl body));
    simpl; try (split; [done|discriminate]).
  first_call f.
  - split; [discriminate|]. by intros _ Hf.
  - destruct (companies db !! _) eqn:E; simpl; [by split|].
    match goal with |- (let (_, _) := ?e in _) => destruct e end.
    split; [discriminate|]. by intros _ _ [c Hc].
  - destruct (companies db !! _) eqn:E; simpl; [by split|].
    match goal with |- (let (_, _) := ?e in _) => destruct e end.
    split; [discriminate|]. by intros _ _ [c Hc].
Qed.

Lemma createCompany_rejects_witness :
  let db := run [(CreateCompany (acme "c1" "ctx-v1"), None)] emptyDb in
  fst (createCompany (acme "c1" "other") {| store := db; fault := None |})
  = Next (createError "Company with ID c1 already exists" 400)
  ∧ store (snd (createCompany (acme "c1" "other") {| store := db; fault := None |}))
    = db.
Proof.
  intros db.
  pose proof (createCompany_rejects (acme "c1" "other") None db) as H.
  destruct (createCompany _ _) as [r w].
  destruct H as [_ H]. apply H; [reflexivity|discriminate|].
  eexists. vm_compute. reflexivity.
Defined.

Lemma synced_empty : synced emptyDb.
Proof. intros cid company H. simpl in H. by rewrite lookup_empty in H. Qed.

Lemma synced_created body db :
  consistent db → synced db →
  companies db !! Js.str (body_companyId body) = None →
  synced (created body db).
Proof.
  intros Hc Hs Hnone cid company. rewrite active_created. simpl.
  destruct (String.eqb_spec (Js.str (body_companyId body)) cid) as [<-|Hne].
  - rewrite lookup_insert_eq. intros [= <-].
    destruct (Hc (Js.str (body_companyId body))) as [Hrec _].
    unfold activeOf. rewrite (active_among_records _ _ (Hrec Hnone)).
    by eexists.
  - rewrite lookup_insert_ne, app_nil_r by done. apply Hs.
Qed.

Lemma synced_contextWritten cid0 ctx v db :
  synced db → synced (contextWritten cid0 ctx v db).
Proof.
  intros Hs cid company. rewrite active_contextWritten. simpl.
  destruct (String.eqb_spec cid0 cid) as [<-|Hne].
  - rewrite lookup_alter_eq. destruct (companies db !! cid0); [|done].
    intros [= <-]. by eexists.
  - rewrite lookup_alter_ne by done. apply Hs.
Qed.

Lemma synced_run h db :
  consistent db → synced db → noDelete h = true → synced (run h db).
Proof.
  revert db. induction h as [|rf h IH]; intros db Hc Hs Hnd; simpl; [done|].
  simpl in Hnd. apply andb_true_iff in Hnd as [Hrf Hh].
  apply negb_true_iff in Hrf.
  apply IH; [by apply consistent_after| |done].
  destruct rf as [[body|cid body|cid] f]; [| |done]; unfold after; simpl.
  - destruct (createCompany_store body f db) as [->|[Hnone ->]]; [done|].
    by apply synced_created.
  - destruct (updateCompanyContext_store cid body f db) as [->|[_ ->]]; [done|].
    by apply synced_contextWritten.
Qed.

(** X6. Along any sequence of [createCompany] and [updateCompanyContext]
    requests from the empty store, whatever calls fail, the
    [documentContext] of every company is the text of its one active
    version record, and reading the context of the company returns that
    text from the versioned collection, never from the fallback. *)
Theorem documentContext_in_sync
  (h : list (Request * option nat)) (cid : string) (company : Company) :
  noDelete h = true →
  companies (run h emptyDb) !! cid = Some company →
  ∃ r, activeOf cid (run h emptyDb) = [r]
       ∧ context r = documentContext company
       ∧ fst (getCompanyContext cid {| store := run h emptyDb; fault := None |})
         = Json 200 (DataContext (companyId company) (name company)
                       (documentContext company) (version r) "context_collection").
Proof.
  intros Hnd Hsome.
  destruct (synced_run h emptyDb consistent_empty synced_empty Hnd cid company Hsome)
    as (r & Hr & Hctx).
  exists r. split; [done|]. split; [done|].
  rewrite getCompanyContext_run, Hsome. unfold Query.findOneLatest.
  unfold activeOf in Hr. rewrite Hr. simpl. by rewrite Hctx.
Qed.

Lemma documentContext_in_sync_witness :
  noDelete scenario = true
  ∧ companies (run scenario emptyDb) !! "c1"
    = Some (Company_cast "c1" "Acme" None "ctx-v2" completed "/c1")
  ∧ ∃ r, activeOf "c1" (run scenario emptyDb) = [r]
         ∧ context r = "ctx-v2"
         ∧ fst (getCompanyContext "c1"
                  {| store := run scenario emptyDb; fault := None |})
           = Json 200 (DataContext "c1" "Acme" "ctx-v2" (version r)
                         "context_collection").
Proof.
  assert (companies (run scenario emptyDb) !! "c1"
          = Some (Company_cast "c1" "Acme" None "ctx-v2" completed "/c1")) as Hsome
    by (vm_compute; reflexivity).
  split; [reflexivity|]. split; [exact Hsome|].
  exact (documentContext_in_sync scenario "c1" _ eq_refl Hsome).
Defined.

(** X7. A request without a status, or with one that is not [in_progress],
    [completed] or [failed], is answered 400 before the company is looked
    up: the answer is the same whether the company exists or not, and no
    database call is made. *)
Lemma updateTrainingStatus_invalid cid body f db :
  (∀ s, body_status body = Some s →
        s ≠ "in_progress" ∧ s ≠ "completed" ∧ s ≠ "failed") →
  updateTrainingStatus cid body {| store := db; fault := f |}
  = (Next (createError
       "Please provide a valid training status (in_progress, completed, failed)"
       400),
     {| store := db; fault := f |}).
Proof.
  intros Hs. unfold_company. simpl.
  destruct (body_status body) as [s|]; simpl; [|done].
  destruct (Hs s eq_refl) as (H1 & H2 & H3).
  unfold statusOf.
  apply String.eqb_neq in H1, H2, H3. rewrite H1, H2, H3.
  by destruct (negb _).
Qed.

Lemma updateTrainingStatus_invalid_witness :
  fst (updateTrainingStatus "c1" {| body_status := Some "done" |}
         {| store := emptyDb; fault := None |})
  = Next (createError
      "Please provide a valid training status (in_progress, completed, failed)"
      400).
Proof.
  rewrite (updateTrainingStatus_invalid "c1" {| body_status := Some "done" |}
             None emptyDb); [reflexivity|].
  intros s [= <-]. repeat split; discriminate.
Defined.

(** X8. A training-status update leaves what the context reads answer:
    whatever the request and whatever call throws, the version records
    and the teams are as before, and every read of a company context
    answers with the same company, text, version number and source as
    before. *)
Theorem updateTrainingStatus_frame
  (cid : string) (body : StatusBody) (f : option nat) (db : Db) (cid' : string) :
  let w := snd (updateTrainingStatus cid body {| store := db; fault := f |}) in
  contexts (store w) = contexts db
  ∧ teams (store w) = teams db
  ∧ fst (getCompanyContext cid' {| store := store w; fault := None |})
    = fst (getCompanyContext cid' {| store := db; fault := None |}).
Proof.
  assert (∀ st,
    fst (getCompanyContext cid'
           {| store := setCompanies (alter (setTrainingStatus st) cid) db;
              fault := None |})
    = fst (getCompanyContext cid' {| store := db; fault := None |})) as Hread.
  { intros st. rewrite !getCompanyContext_run. simpl.
    destruct (decide (cid = cid')) as [<-|Hne].
    - rewrite lookup_alter_eq. by destruct (companies db !! cid).
    - by rewrite lookup_alter_ne. }
  unfold_company. simpl.
  destruct (if Js.truthy (body_status body) then _ else _) as [st|]; simpl;
    [|done].
  first_call f; [done| |].
  - destruct (companies db !! cid); simpl; by rewrite Hread.
  - destruct (companies db !! cid); simpl; by rewrite Hread.
Qed.

(** For an existing company and a valid status, without a fault, the
    answer is 200 with the company carrying the new status, and the
    company record is that one. *)
Lemma updateTrainingStatus_sets cid s st company db :
  s ≠ "" → statusOf s = Some st → companies db !! cid = Some company →
  updateTrainingStatus cid {| body_status := Some s |}
    {| store := db; fault := None |}
  = (Json 200 (DataCompany (setTrainingStatus st company)),
     {| store := setCompanies (insert cid (setTrainingStatus st company)) db;
        fault := None |}).
Proof.
  intros Hs Hst Hsome. unfold_company. simpl. nonempty. simpl.
  rewrite Hst. simpl. rewrite Hsome. simpl.
  unfold setCompanies. by rewrite (alter_lookup_Some _ _ _ _ Hsome).
Qed.

Lemma summaryCompanyId_nonempty userId timestamp randomString :
  summaryCompanyId userId timestamp randomString ≠ "".
Proof. unfold summaryCompanyId. by destruct userId. Qed.

(** X9. Whatever call throws, [storeSummary] answers 201 and has stored the
    company with its first version record under an id that was free, or
    passes an error on and has stored nothing; a company that exists under
    the generated id is never replaced. *)
Lemma storeSummary_outcome timestamp randomString body f db :
  let cid := summaryCompanyId (Js.str (body_userId body)) timestamp randomString in
  let (r, w) := storeSummary timestamp randomString body
                  {| store := db; fault := f |} in
  (r = SummaryStored cid ("/chatbot/summary/" ++ cid) (Js.str (body_fileName body))
         (Js.length (Js.str (body_summary body)))
   ∧ store w = summaryStored timestamp randomString body db
   ∧ companies db !! cid = None)
  ∨ (∃ e, r = SummaryNext e ∧ store w = db).
Proof.
  unfold_company. simpl.
  destruct (negb _ || _ || _); simpl; [right; eauto|].
  first_call f; [right; eauto| |].
  - destruct (Company_validate _); simpl.
    { later_call f; right; eauto. }
    later_call f; [right; eauto|].
    destruct (companies db !! _) eqn:E; simpl.
    { later_call f; right; eauto. }
    destruct (CompanyContext_validate _); simpl.
    { later_call f; right; eauto. }
    later_call f; [right; eauto|]. later_call f; [right; eauto|]. by left.
  - destruct (Company_validate _); simpl; [right; eauto|].
    destruct (companies db !! _) eqn:E; simpl; [right; eauto|].
    destruct (CompanyContext_validate _); simpl; [right; eauto|].
    by left.
Qed.

(** X10. A summary stored under an id that no company and no version record
    carries yet is what a read of that id returns, with version 1 from the
    versioned collection; the company is named after the file. *)
Theorem storeSummary_then_read
  (timestamp : N) (randomString userId fileName summary : string) (db : Db) :
  let cid := summaryCompanyId userId timestamp randomString in
  userId ≠ "" → Js.trim fileName ≠ "" → summary ≠ "" →
  companies db !! cid = None →
  Query.find (Query.byCompany cid) (contexts db) = [] →
  let (r, w) := storeSummary timestamp randomString
                  {| body_userId := Some userId; body_fileName := Some fileName;
                     body_summary := Some summary |}
                  {| store := db; fault := None |} in
  r = SummaryStored cid ("/chatbot/summary/" ++ cid) fileName (Js.length summary)
  ∧ fst (getCompanyContext cid {| store := store w; fault := None |})
    = Json 200 (DataContext cid (Js.trim fileName) summary 1 "context_collection").
Proof.
  intros cid Huser Hfile Hsummary Hnone Hrec.
  assert (fileName ≠ "") as Hfile' by (intros ->; by apply Hfile).
  pose proof (summaryCompanyId_nonempty userId timestamp randomString) as Hcid.
  fold cid in Hcid.
  unfold_company. simpl. nonempty. simpl.
  unfold Company_validate, CompanyContext_validate. simpl.
  fold cid. nonempty. simpl. rewrite Hnone. simpl. nonempty. simpl.
  split; [done|].
  rewrite getCompanyContext_run. simpl.
  rewrite lookup_insert_eq. unfold Query.findOneLatest.
  rewrite find_app, (active_among_records _ _ Hrec). simpl.
  unfold Query.activeOf, Query.byCompany. simpl.
  by rewrite String.eqb_refl.
Qed.

Lemma storeSummary_then_read_witness :
  let (r, w) := storeSummary 1714000000123 "k3x9qa"
                  {| body_userId := Some "u1"; body_fileName := Some "Report.pdf";
                     body_summary := Some "A summary." |}
                  {| store := emptyDb; fault := None |} in
  r = SummaryStored "u1-1714000000123-k3x9qa"
        "/chatbot/summary/u1-1714000000123-k3x9qa" "Report.pdf" 10
  ∧ fst (getCompanyContext "u1-1714000000123-k3x9qa"
           {| store := store w; fault := None |})
    = Json 200 (DataContext "u1-1714000000123-k3x9qa" "Report.pdf" "A summary." 1
                  "context_collection").
Proof.
  pose proof (storeSummary_then_read 1714000000123 "k3x9qa" "u1" "Report.pdf"
                "A summary." emptyDb) as H.
  destruct (storeSummary _ _ _ _) as [r w].
  apply H; try discriminate; reflexivity.
Defined.

End CompanyMore.

(** ** More on the context diagnostic and the reads *)

Section DiagnosticMore.

Import CompanyRoutes.

Implicit Types (db : Db) (cid : string) (l : list CompanyContext).

Lemma insertDesc_perm c l : Permutation (Query.insertDesc c l) (c :: l).
Proof.
  induction l as [|d l IH]; simpl; [done|].
  destruct (version d <? version c)%Z; [done|].
  rewrite IH. apply perm_swap.
Qed.

Lemma sortDesc_perm l : Permutation (Query.sortDesc l) l.
Proof.
  induction l as [|c l IH]; simpl; [done|].
  rewrite insertDesc_perm. by constructor.
Qed.

Lemma insertDesc_sorted c l :
  StronglySorted (fun a b => (version b <= version a)%Z) l →
  StronglySorted (fun a b => (version b <= version a)%Z) (Query.insertDesc c l).
Proof.
  induction 1 as [|d l Hl IH Hd]; simpl.
  { repeat constructor. }
  destruct (Z.ltb_spec (version d) (version c)) as [Hlt|Hge].
  - constructor; [by constructor|].
    constructor; [lia|].
    eapply Forall_impl; [exact Hd|]. simpl. intros; lia.
  - constructor; [done|].
    rewrite (insertDesc_perm c l). by constructor.
Qed.

Lemma sortDesc_sorted l :
  StronglySorted (fun a b => (version b <= version a)%Z) (Query.sortDesc l).
Proof.
  induction l as [|c l IH]; simpl; [constructor|]. by apply insertDesc_sorted.
Qed.

(** X11. For an existing company the report lists each of its version records
    once, by decreasing version number; [contextsCount] is their number
    and [activeContexts] the number of the active ones among them. *)
Theorem contextDiagnostic_report (cid : string) (company : Company) (db : Db) :
  companies db !! cid = Some company →
  ∃ hasDocumentContext suggestion action infos,
    diagnostic (fst (contextDiagnostic (Some (true, true)) cid
                       {| store := db; fault := None |}))
    = Some (Existing cid (name company) hasDocumentContext
              (Js.length (documentContext company))
              (List.length (Query.find (Query.byCompany cid) (contexts db)))
              (List.length (activeOf cid db))
              infos suggestion action)
    ∧ Permutation infos (map infoOf (Query.find (Query.byCompany cid) (contexts db)))
    ∧ StronglySorted (fun a b => (info_version b <= info_version a)%Z) infos
    ∧ (List.length (activeOf cid db)
       ≤ List.length (Query.find (Query.byCompany cid) (contexts db)))%nat.
Proof.
  intros Hsome. rewrite contextDiagnostic_run, Hsome. unfold report. simpl.
  rewrite sortDesc_count, sortDesc_length, active_of_records.
  fold (activeOf cid db).
  destruct (if _ : bool then _ else _) as [suggestion action].
  do 4 eexists. split; [reflexivity|]. split; [|split].
  - by rewrite sortDesc_perm.
  - pose proof (sortDesc_sorted (Query.find (Query.byCompany cid) (contexts db)))
      as Hs.
    induction Hs as [|c l Hl IH Hc]; simpl; constructor; [done|].
    clear -Hc. induction Hc; simpl; constructor; done.
  - unfold activeOf. rewrite <- active_of_records. apply List.filter_length_le.
Qed.

Lemma contextDiagnostic_report_witness :
  ∃ hasDocumentContext suggestion action infos,
    diagnostic (fst (contextDiagnostic (Some (true, true)) "c1"
                       {| store := run scenario emptyDb; fault := None |}))
    = Some (Existing "c1" "Acme" hasDocumentContext 6 2 1 infos suggestion action)
    ∧ Permutation infos
        (map infoOf (Query.find (Query.byCompany "c1")
                       (contexts (run scenario emptyDb))))
    ∧ StronglySorted (fun a b => (info_version b <= info_version a)%Z) infos
    ∧ (1 ≤ 2)%nat.
Proof.
  apply (contextDiagnostic_report "c1"
           (Company_cast "c1" "Acme" None "ctx-v2" completed "/c1")
           (run scenario emptyDb)).
  vm_compute. reflexivity.
Defined.

(** X12. The reads write nothing: whatever call throws, [getCompanyById],
    [getCompanyContext] and the context diagnostic leave the store as it
    was, so that a read repeated without a write in between is answered
    from the same store. *)
Theorem reads_write_nothing
  (cid : string) (models : option (bool * bool)) (f : option nat) (db : Db) :
  store (snd (getCompanyById cid {| store := db; fault := f |})) = db
  ∧ store (snd (getCompanyContext cid {| store := db; fault := f |})) = db
  ∧ store (snd (contextDiagnostic models cid {| store := db; fault := f |})) = db.
Proof.
  split; [|split].
  - unfold getCompanyById. unfold_handler.
    first_call f; [done| |]; by destruct (companies db !! cid).
  - unfold getCompanyContext. unfold_handler.
    first_call f; [done| |].
    + destruct (companies db !! cid); simpl; [|done].
      later_call f; [done|].
      destruct (Query.findOneLatest _ _); simpl; [done|].
      by destruct (String.eqb _ _).
    + destruct (companies db !! cid); simpl; [|done].
      destruct (Query.findOneLatest _ _); simpl; [done|].
      by destruct (String.eqb _ _).
  - unfold contextDiagnostic. unfold_handler.
    destruct models as [[[] []]|]; simpl; try done.
    first_call f; [done| |].
    + destruct (companies db !! cid); simpl; [|done]. by later_call f.
    + by destruct (companies db !! cid).
Qed.

End DiagnosticMore.

(** ** More on the team handlers *)

Section TeamsMoreFacts.

Import Teams TeamsMore.

Implicit Types (db : Db) (f : option nat) (l : list Member) (uid : string).
Implicit Types (castObjectId : string → option string).
Implicit Types (validateTeam : string → Team → option string).

Ltac unfold_teams :=
  unfold removeTeamMember, addTeamMember, updateMemberRole, deleteTeam,
    Team_findById, Team_save;
  unfold_handler.

(** [findIndex] finds the first entry of the user. *)
Lemma findIndex_split uid l i :
  findIndex uid l = Return (Some i) →
  ∃ before m after,
    l = (before ++ m :: after)%list ∧ List.length before = i
    ∧ user m = Some uid
    ∧ Forall (fun x => user x ≠ Some uid) before.
Proof.
  revert i. induction l as [|x l IH]; intros i; simpl; [done|].
  destruct (user x) as [u|] eqn:Hu; [|done].
  destruct (String.eqb_spec u uid) as [->|Hne].
  - intros [= <-]. exists [], x, l. by repeat split.
  - destruct (findIndex uid l) as [[j|]|e]; simpl; try done.
    intros [= <-]. destruct (IH j eq_refl) as (b & m & a & -> & <- & Hm & Hb).
    exists (x :: b), m, a. repeat split; [done|].
    constructor; [|done]. rewrite Hu. congruence.
Qed.

Lemma splice1_middle (before after : list Member) m :
  splice1 (List.length before) (before ++ m :: after) = (before ++ after)%list.
Proof.
  unfold splice1. induction before as [|x before IH]; simpl; [done|].
  by rewrite IH.
Qed.

Lemma alter_middle (g : Member → Member) (before after : list Member) m :
  alter g (List.length before) (before ++ m :: after)%list
  = (before ++ g m :: after)%list.
Proof.
  rewrite <- (Nat.add_0_r (List.length before)). by rewrite alter_app_r.
Qed.

(** What a member removal does to the store: nothing, or it saves a team
    without an entry of the target, who is not its owner. *)
Lemma removeTeamMember_store
  castObjectId validateTeam (teamId callerId targetId : string) f db :
  let db' := store (snd (removeTeamMember castObjectId validateTeam teamId
                           callerId targetId {| store := db; fault := f |})) in
  db' = db
  ∨ (∃ oid team before m after,
       teams db !! oid = Some team
       ∧ owner team ≠ targetId
       ∧ members team = (before ++ m :: after)%list
       ∧ user m = Some targetId
       ∧ db' = setTeams (insert oid (setMembers (before ++ after) team)) db).
Proof.
  unfold_teams.
  destruct (castObjectId teamId) as [oid|] eqn:Hcast; [|by left].
  assert (∀ l i,
    findIndex targetId l = Return (Some i) →
    ∃ before m after,
      l = (before ++ m :: after)%list ∧ user m = Some targetId
      ∧ splice1 i l = (before ++ after)%list) as Hdone.
  { intros l i Hi.
    destruct (findIndex_split _ _ _ Hi) as (b & m & a & -> & <- & Hm & _).
    exists b, m, a. by rewrite splice1_middle. }
  first_call f; [by left| |].
  - destruct (teams db !! oid) as [team|] eqn:Hteam; simpl; [|by left].
    destruct (find callerId (members team)) as [um|e]; simpl; [|by left].
    destruct (authorized um); simpl; [|by left].
    destruct (String.eqb_spec (owner team) targetId) as [Heq|Hne]; simpl;
      [by left|].
    destruct (findIndex targetId (members team)) as [[i|]|e] eqn:Hi; simpl;
      [|by left..].
    destruct (Hdone _ _ Hi) as (b & m & a & Hl & Hm & ->).
    destruct (validateTeam oid _) as [path|]; simpl; [by left|].
    later_call f; [by left|]. right. by exists oid, team, b, m, a.
  - destruct (teams db !! oid) as [team|] eqn:Hteam; simpl; [|by left].
    destruct (find callerId (members team)) as [um|e]; simpl; [|by left].
    destruct (authorized um); simpl; [|by left].
    destruct (String.eqb_spec (owner team) targetId) as [Heq|Hne]; simpl;
      [by left|].
    destruct (findIndex targetId (members team)) as [[i|]|e] eqn:Hi; simpl;
      [|by left..].
    destruct (Hdone _ _ Hi) as (b & m & a & Hl & Hm & ->).
    destruct (validateTeam oid _) as [path|]; simpl; [by left|].
    right. by exists oid, team, b, m, a.
Qed.

(** X13. Whatever call throws, a member removal either passes an error on and
    changes nothing, or answers 200 with the saved team: then the caller is
    a member with role [owner] or [admin], the target is not the owner of
    the team, the team without the first membership entry of the target
    passes the validation, and exactly that entry is gone, the other
    entries staying in their order. *)
Theorem removeTeamMember_outcome
  (castObjectId : string → option string)
  (validateTeam : string → Team → option string)
  (teamId callerId targetId : string) (f : option nat) (db : Db) :
  let (r, w) := removeTeamMember castObjectId validateTeam teamId callerId
                  targetId {| store := db; fault := f |} in
  (∃ e, r = Next e ∧ store w = db)
  ∨ (∃ oid team userMember before m after,
       castObjectId teamId = Some oid
       ∧ teams db !! oid = Some team
       ∧ find callerId (members team) = Return userMember
       ∧ authorized userMember = true
       ∧ owner team ≠ targetId
       ∧ members team = (before ++ m :: after)%list
       ∧ user m = Some targetId
       ∧ Forall (fun x => user x ≠ Some targetId) before
       ∧ validateTeam oid (setMembers (before ++ after) team) = None
       ∧ r = Json 200 (DataTeam (setMembers (before ++ after) team))
       ∧ store w = setTeams (insert oid (setMembers (before ++ after) team)) db).
Proof.
  assert (∀ l i,
    findIndex targetId l = Return (Some i) →
    ∃ before m after,
       l = (before ++ m :: after)%list
       ∧ user m = Some targetId
       ∧ Forall (fun x => user x ≠ Some targetId) before
       ∧ splice1 i l = (before ++ after)%list) as Hdone.
  { intros l i Hi.
    destruct (findIndex_split _ _ _ Hi) as (b & m & a & -> & <- & Hm & Hb).
    exists b, m, a. by rewrite splice1_middle. }
  unfold_teams.
  destruct (castObjectId teamId) as [oid|] eqn:Hcast; [|left; eauto].
  first_call f; [left; eauto| |].
  - destruct (teams db !! oid) as [team|] eqn:Hteam; simpl; [|left; eauto].
    destruct (find callerId (members team)) as [um|e] eqn:Hfind; simpl;
      [|left; eauto].
    destruct (authorized um) eqn:Hauth; simpl; [|left; eauto].
    destruct (String.eqb_spec (owner team) targetId) as [Heq|Hne]; simpl;
      [left; eauto|].
    destruct (findIndex targetId (members team)) as [[i|]|e] eqn:Hi; simpl;
      [|left; eauto..].
    destruct (Hdone _ _ Hi) as (b & m & a & Hl & Hm & Hb & ->).
    destruct (validateTeam oid _) as [path|] eqn:Hsave; simpl; [left; eauto|].
    later_call f; [left; eauto|]. right.
    by exists oid, team, um, b, m, a.
  - destruct (teams db !! oid) as [team|] eqn:Hteam; simpl; [|left; eauto].
    destruct (find callerId (members team)) as [um|e] eqn:Hfind; simpl;
      [|left; eauto].
    destruct (authorized um) eqn:Hauth; simpl; [|left; eauto].
    destruct (String.eqb_spec (owner team) targetId) as [Heq|Hne]; simpl;
      [left; eauto|].
    destruct (findIndex targetId (members team)) as [[i|]|e] eqn:Hi; simpl;
      [|left; eauto..].
    destruct (Hdone _ _ Hi) as (b & m & a & Hl & Hm & Hb & ->).
    destruct (validateTeam oid _) as [path|] eqn:Hsave; simpl; [left; eauto|].
    right. by exists oid, team, um, b, m, a.
Qed.

(** What a role update does to the store: nothing, or it saves a team in
    which one entry of the target, who is not its owner, has another
    role. *)
Lemma updateMemberRole_store
  castObjectId validateTeam (teamId callerId targetId : string)
  (role : option string) f db :
  let db' := store (snd (updateMemberRole castObjectId validateTeam teamId
                           callerId targetId role
                           {| store := db; fault := f |})) in
  db' = db
  ∨ (∃ oid team newRole before m after,
       teams db !! oid = Some team
       ∧ owner team ≠ targetId
       ∧ members team = (before ++ m :: after)%list
       ∧ user m = Some targetId
       ∧ db' = setTeams (insert oid
                 (setMembers (before ++ setRole newRole m :: after) team)) db).
Proof.
  unfold_teams.
  destruct (negb (Js.truthy role) || negb (validRole (Js.str role))); simpl;
    [by left|].
  destruct (castObjectId teamId) as [oid|] eqn:Hcast; [|by left].
  assert (∀ l i g,
    findIndex targetId l = Return (Some i) →
    ∃ before m after,
      l = (before ++ m :: after)%list ∧ user m = Some targetId
      ∧ alter g i l = (before ++ g m :: after)%list) as Hdone.
  { intros l i g Hi.
    destruct (findIndex_split _ _ _ Hi) as (b & m & a & -> & <- & Hm & _).
    exists b, m, a. by rewrite alter_middle. }
  first_call f; [by left| |].
  - destruct (teams db !! oid) as [team|] eqn:Hteam; simpl; [|by left].
    destruct (String.eqb (owner team) callerId); simpl; [|by left].
    destruct (String.eqb_spec (owner team) targetId) as [|Hne]; simpl;
      [by left|].
    destruct (findIndex targetId (members team)) as [[i|]|e] eqn:Hi; simpl;
      [|by left..].
    destruct (Hdone _ _ (setRole (Js.str role)) Hi)
      as (b & m & a & Hl & Hm & ->).
    destruct (validateTeam oid _) as [path|]; simpl; [by left|].
    later_call f; [by left|]. right.
    by exists oid, team, (Js.str role), b, m, a.
  - destruct (teams db !! oid) as [team|] eqn:Hteam; simpl; [|by left].
    destruct (String.eqb (owner team) callerId); simpl; [|by left].
    destruct (String.eqb_spec (owner team) targetId) as [|Hne]; simpl;
      [by left|].
    destruct (findIndex targetId (members team)) as [[i|]|e] eqn:Hi; simpl;
      [|by left..].
    destruct (Hdone _ _ (setRole (Js.str role)) Hi)
      as (b & m & a & Hl & Hm & ->).
    destruct (validateTeam oid _) as [path|]; simpl; [by left|].
    right. by exists oid, team, (Js.str role), b, m, a.
Qed.

(** X14. Whatever call throws, a role update either passes an error on and
    changes nothing, or answers 200 with the saved team: then the caller is
    the owner of the team, the target is another user, the role is [member]
    or [admin], the team with the new role passes the validation, and
    exactly the first membership entry of the target has the new role,
    every entry keeping its user and its place. *)
Theorem updateMemberRole_outcome
  (castObjectId : string → option string)
  (validateTeam : string → Team → option string)
  (teamId callerId targetId : string) (role : option string)
  (f : option nat) (db : Db) :
  let (r, w) := updateMemberRole castObjectId validateTeam teamId callerId
                  targetId role {| store := db; fault := f |} in
  (∃ e, r = Next e ∧ store w = db)
  ∨ (∃ oid team newRole before m after,
       castObjectId teamId = Some oid
       ∧ teams db !! oid = Some team
       ∧ owner team = callerId
       ∧ owner team ≠ targetId
       ∧ role = Some newRole ∧ (newRole = "member" ∨ newRole = "admin")
       ∧ members team = (before ++ m :: after)%list
       ∧ user m = Some targetId
       ∧ Forall (fun x => user x ≠ Some targetId) before
       ∧ validateTeam oid
           (setMembers (before ++ setRole newRole m :: after) team) = None
       ∧ r = Json 200 (DataTeam
               (setMembers (before ++ setRole newRole m :: after) team))
       ∧ store w = setTeams (insert oid
               (setMembers (before ++ setRole newRole m :: after) team)) db).
Proof.
  assert (∀ l i g,
    findIndex targetId l = Return (Some i) →
    ∃ before m after,
       l = (before ++ m :: after)%list
       ∧ user m = Some targetId
       ∧ Forall (fun x => user x ≠ Some targetId) before
       ∧ alter g i l = (before ++ g m :: after)%list) as Hdone.
  { intros l i g Hi.
    destruct (findIndex_split _ _ _ Hi) as (b & m & a & -> & <- & Hm & Hb).
    exists b, m, a. by rewrite alter_middle. }
  unfold_teams.
  destruct role as [newRole|]; simpl; [|left; eauto].
  destruct (String.eqb_spec newRole "") as [->|Hrole]; simpl; [left; eauto|].
  destruct (validRole newRole) eqn:Hvalid; simpl; [|left; eauto].
  assert (newRole = "member" ∨ newRole = "admin") as Hrole'.
  { unfold validRole in Hvalid. apply orb_true_iff in Hvalid as [H|H];
      apply String.eqb_eq in H; auto. }
  destruct (castObjectId teamId) as [oid|] eqn:Hcast; [|left; eauto].
  first_call f; [left; eauto| |].
  - destruct (teams db !! oid) as [team|] eqn:Hteam; simpl; [|left; eauto].
    destruct (String.eqb_spec (owner team) callerId) as [Hown|]; simpl;
      [|left; eauto].
    destruct (String.eqb_spec (owner team) targetId) as [|Hne]; simpl;
      [left; eauto|].
    destruct (findIndex targetId (members team)) as [[i|]|e] eqn:Hi; simpl;
      [|left; eauto..].
    destruct (Hdone _ _ (setRole newRole) Hi) as (b & m & a & Hl & Hm & Hb & ->).
    destruct (validateTeam oid _) as [path|] eqn:Hsave; simpl; [left; eauto|].
    later_call f; [left; eauto|]. right.
    by exists oid, team, newRole, b, m, a.
  - destruct (teams db !! oid) as [team|] eqn:Hteam; simpl; [|left; eauto].
    destruct (String.eqb_spec (owner team) callerId) as [Hown|]; simpl;
      [|left; eauto].
    destruct (String.eqb_spec (owner team) targetId) as [|Hne]; simpl;
      [left; eauto|].
    destruct (findIndex targetId (members team)) as [[i|]|e] eqn:Hi; simpl;
      [|left; eauto..].
    destruct (Hdone _ _ (setRole newRole) Hi) as (b & m & a & Hl & Hm & Hb & ->).
    destruct (validateTeam oid _) as [path|] eqn:Hsave; simpl; [left; eauto|].
    right. by exists oid, team, newRole, b, m, a.
Qed.

(** [find] answers [None] only when no entry is of the user. *)
Lemma find_None uid l :
  find uid l = Return None → Forall (fun x => user x ≠ Some uid) l.
Proof.
  induction l as [|x l IH]; simpl; [constructor|].
  destruct (user x) as [u|] eqn:Hu; [|done].
  destruct (String.eqb_spec u uid) as [->|Hne]; [done|].
  intros H. constructor; [|by apply IH]. rewrite Hu. congruence.
Qed.

(** What adding a member does to the store: nothing, or it saves a team
    with one more entry, of a user who had none. *)
Lemma addTeamMember_store
  castObjectId validateTeam (users : gmap string string)
  (teamId callerId : string) (email role : option string) f db :
  let db' := store (snd (addTeamMember castObjectId validateTeam users teamId
                           callerId email role
                           {| store := db; fault := f |})) in
  db' = db
  ∨ (∃ oid team userToAdd newRole,
       teams db !! oid = Some team
       ∧ Forall (fun x => user x ≠ Some userToAdd) (members team)
       ∧ db' = setTeams (insert oid (setMembers
                 (members team ++ [{| user := Some userToAdd; role := newRole |}])
                 team)) db).
Proof.
  unfold_teams.
  destruct (negb (Js.truthy email)); simpl; [by left|].
  destruct (Js.truthy role && negb (validRole (Js.str role))); simpl;
    [by left|].
  destruct (castObjectId teamId) as [oid|] eqn:Hcast; [|by left].
  first_call f; [by left| |].
  - destruct (teams db !! oid) as [team|] eqn:Hteam; simpl; [|by left].
    destruct (find callerId (members team)) as [um|e]; simpl; [|by left].
    destruct (authorized um); simpl; [|by left].
    later_call f; [by left|].
    destruct (users !! Js.str email) as [userToAdd|]; simpl; [|by left].
    destruct (find userToAdd (members team)) as [[x|]|e] eqn:Hmember; simpl;
      [by left| |by left].
    destruct (validateTeam oid _) as [path|]; simpl; [by left|].
    later_call f; [by left|]. right.
    eexists oid, team, userToAdd, _. split; [done|].
    split; [by apply find_None|done].
  - destruct (teams db !! oid) as [team|] eqn:Hteam; simpl; [|by left].
    destruct (find callerId (members team)) as [um|e]; simpl; [|by left].
    destruct (authorized um); simpl; [|by left].
    destruct (users !! Js.str email) as [userToAdd|]; simpl; [|by left].
    destruct (find userToAdd (members team)) as [[x|]|e] eqn:Hmember; simpl;
      [by left| |by left].
    destruct (validateTeam oid _) as [path|]; simpl; [by left|].
    right. eexists oid, team, userToAdd, _. split; [done|].
    split; [by apply find_None|done].
Qed.

(** X15. Whatever call throws, adding a member either passes an error on and
    changes nothing, or answers 200 with the saved team: then the caller is
    a member with role [owner] or [admin], the e-mail address is the one
    of a user who has no membership entry yet, the team with the new entry
    passes the validation, and one entry for that user is appended, with
    the role asked for if it is [member] or [admin] and with role [member]
    if none was asked for. *)
Theorem addTeamMember_outcome
  (castObjectId : string → option string)
  (validateTeam : string → Team → option string)
  (users : gmap string string) (teamId callerId : string)
  (email role : option string) (f : option nat) (db : Db) :
  let (r, w) := addTeamMember castObjectId validateTeam users teamId callerId
                  email role {| store := db; fault := f |} in
  (∃ e, r = Next e ∧ store w = db)
  ∨ (∃ oid team userMember address userToAdd newRole,
       castObjectId teamId = Some oid
       ∧ teams db !! oid = Some team
       ∧ find callerId (members team) = Return userMember
       ∧ authorized userMember = true
       ∧ email = Some address ∧ users !! address = Some userToAdd
       ∧ Forall (fun x => user x ≠ Some userToAdd) (members team)
       ∧ (role = Some newRole ∧ (newRole = "member" ∨ newRole = "admin")
          ∨ (role = None ∨ role = Some "") ∧ newRole = "member")
       ∧ validateTeam oid (setMembers
           (members team ++ [{| user := Some userToAdd; role := newRole |}])
           team) = None
       ∧ r = Json 200 (DataTeam (setMembers
               (members team ++ [{| user := Some userToAdd; role := newRole |}])
               team))
       ∧ store w = setTeams (insert oid (setMembers
               (members team ++ [{| user := Some userToAdd; role := newRole |}])
               team)) db).
Proof.
  unfold_teams.
  destruct email as [address|]; simpl; [|left; eauto].
  destruct (String.eqb_spec address "") as [->|Haddress]; simpl; [left; eauto|].
  assert (∃ newRole,
    (if Js.truthy role then Js.str role else "member") = newRole
    ∧ (Js.truthy role && negb (validRole (Js.str role)) = false →
       role = Some newRole ∧ (newRole = "member" ∨ newRole = "admin")
       ∨ (role = None ∨ role = Some "") ∧ newRole = "member"))
    as (newRole & -> & Hrole).
  { destruct role as [s|]; simpl; [|by eexists; split; [|right; auto]].
    destruct (String.eqb_spec s "") as [->|Hs]; simpl.
    { eexists; split; [done|]. right; auto. }
    eexists; split; [done|]. intros Hv%negb_false_iff. left. split; [done|].
    unfold validRole in Hv. apply orb_true_iff in Hv as [H|H];
      apply String.eqb_eq in H; auto. }
  destruct (Js.truthy role && negb (validRole (Js.str role))) eqn:Hcheck; simpl;
    [left; eauto|].
  specialize (Hrole eq_refl).
  destruct (castObjectId teamId) as [oid|] eqn:Hcast; [|left; eauto].
  first_call f; [left; eauto| |].
  - destruct (teams db !! oid) as [team|] eqn:Hteam; simpl; [|left; eauto].
    destruct (find callerId (members team)) as [um|e] eqn:Hfind; simpl;
      [|left; eauto].
    destruct (authorized um) eqn:Hauth; simpl; [|left; eauto].
    later_call f; [left; eauto|].
    destruct (users !! address) as [userToAdd|] eqn:Huser; simpl; [|left; eauto].
    destruct (find userToAdd (members team)) as [[x|]|e] eqn:Hmember; simpl;
      [left; eauto| |left; eauto].
    destruct (validateTeam oid _) as [path|] eqn:Hsave; simpl; [left; eauto|].
    later_call f; [left; eauto|]. right.
    exists oid, team, um, address, userToAdd, newRole.
    repeat split; try done. by apply find_None.
  - destruct (teams db !! oid) as [team|] eqn:Hteam; simpl; [|left; eauto].
    destruct (find callerId (members team)) as [um|e] eqn:Hfind; simpl;
      [|left; eauto].
    destruct (authorized um) eqn:Hauth; simpl; [|left; eauto].
    destruct (users !! address) as [userToAdd|] eqn:Huser; simpl; [|left; eauto].
    destruct (find userToAdd (members team)) as [[x|]|e] eqn:Hmember; simpl;
      [left; eauto| |left; eauto].
    destruct (validateTeam oid _) as [path|] eqn:Hsave; simpl; [left; eauto|].
    right.
    exists oid, team, um, address, userToAdd, newRole.
    repeat split; try done. by apply find_None.
Qed.

(** X16. Whatever call throws, [deleteTeam] either passes an error on and
    changes nothing, or answers 200 for the owner of the team and has
    deleted it. *)
Lemma deleteTeam_outcome castObjectId teamId callerId f db :
  let (r, w) := deleteTeam castObjectId teamId callerId
                  {| store := db; fault := f |} in
  (∃ e, r = Next e ∧ store w = db)
  ∨ (∃ oid team,
       castObjectId teamId = Some oid
       ∧ teams db !! oid = Some team ∧ owner team = callerId
       ∧ r = Json 200 DataEmpty
       ∧ store w = setTeams (delete oid) db).
Proof.
  unfold_teams.
  destruct (castObjectId teamId) as [oid|] eqn:Hcast; [|left; eauto].
  first_call f; [left; eauto| |].
  - destruct (teams db !! oid) as [team|] eqn:Hteam; simpl; [|left; eauto].
    destruct (String.eqb_spec (owner team) callerId); simpl; [|left; eauto].
    later_call f; [left; eauto|]. right. by exists oid, team.
  - destruct (teams db !! oid) as [team|] eqn:Hteam; simpl; [|left; eauto].
    destruct (String.eqb_spec (owner team) callerId); simpl; [|left; eauto].
    right. by exists oid, team.
Qed.

Lemma ownerKept_after castObjectId validateTeam users teamId o m db rf :
  ownerKept teamId o m db →
  ownerKept teamId o m (afterMember castObjectId validateTeam users db rf).
Proof.
  intros (team & Hteam & Hown & Hm & Hin).
  assert (∀ tid saved,
    (tid = teamId → owner saved = o ∧ In m (members saved)) →
    ownerKept teamId o m (setTeams (insert tid saved) db)) as Hsaved.
  { intros tid saved Hs. unfold ownerKept. simpl.
    destruct (decide (tid = teamId)) as [->|Hne].
    - rewrite lookup_insert_eq. destruct (Hs eq_refl). by exists saved.
    - rewrite lookup_insert_ne by done. by exists team. }
  assert (ownerKept teamId o m db) as Hdb by (by exists team).
  destruct rf as [[tid caller email role|tid caller target|tid caller target role] f];
    unfold afterMember; simpl.
  - pose proof (addTeamMember_store castObjectId validateTeam users tid caller
                  email role f db) as H. cbv zeta in H.
    destruct H as [->|(oid & t & u & nr & Ht & _ & ->)]; [done|].
    apply Hsaved. intros ->. rewrite Hteam in Ht. injection Ht as <-.
    split; [done|]. simpl. apply in_or_app. by left.
  - pose proof (removeTeamMember_store castObjectId validateTeam tid caller
                  target f db) as H. cbv zeta in H.
    destruct H as [->|(oid & t & b & x & a & Ht & Hne & Hl & Hx & ->)];
      [done|].
    apply Hsaved. intros ->. rewrite Hteam in Ht. injection Ht as <-.
    split; [done|]. simpl. rewrite Hl in Hin.
    apply in_app_or in Hin as [Hin|[->|Hin]].
    + apply in_or_app. by left.
    + congruence.
    + apply in_or_app. by right.
  - pose proof (updateMemberRole_store castObjectId validateTeam tid caller
                  target role f db) as H. cbv zeta in H.
    destruct H as [->|(oid & t & nr & b & x & a & Ht & Hne & Hl & Hx & ->)];
      [done|].
    apply Hsaved. intros ->. rewrite Hteam in Ht. injection Ht as <-.
    split; [done|]. simpl. rewrite Hl in Hin.
    apply in_app_or in Hin as [Hin|[->|Hin]].
    + apply in_or_app. by left.
    + congruence.
    + apply in_or_app. right. by right.
Qed.

(** X17. Whatever members are added, removed and given another role, by
    whichever callers and whatever calls throw, a team keeps its owner and
    the owner keeps every membership entry they have, with its role. *)
Theorem owner_is_kept
  (castObjectId : string → option string)
  (validateTeam : string → Team → option string)
  (users : gmap string string) (h : list (MemberRequest * option nat))
  (teamId o : string) (m : Member) (db : Db) :
  ownerKept teamId o m db →
  ownerKept teamId o m (runMembers castObjectId validateTeam users h db).
Proof.
  revert db. induction h as [|rf h IH]; intros db Hdb; simpl; [done|].
  apply IH. by apply ownerKept_after.
Qed.

Lemma owner_is_kept_witness :
  ownerKept team1 user1 {| user := Some user1; role := "admin" |} teamDb
  ∧ ownerKept team1 user1 {| user := Some user1; role := "admin" |}
      (runMembers castHex24 validateRoles sampleUsers
         [(AddMember team1 user1 (Some "ann@example.com") (Some "admin"), None);
          (RemoveMember team1 user3 user1, None);
          (UpdateRole team1 user1 user3 (Some "member"), None);
          (RemoveMember team1 user1 user2, None)] teamDb).
Proof.
  assert (ownerKept team1 user1 {| user := Some user1; role := "admin" |} teamDb)
    as H.
  { exists sampleTeam. split; [vm_compute; reflexivity|].
    split; [reflexivity|]. split; [reflexivity|]. by left. }
  split; [exact H|]. by apply owner_is_kept.
Defined.

Lemma distinct_after castObjectId validateTeam users db rf :
  distinctMembers db →
  distinctMembers (afterMember castObjectId validateTeam users db rf).
Proof.
  intros Hdb.
  assert (∀ tid team saved,
    teams db !! tid = Some team →
    (NoDup (usersOf team) → NoDup (usersOf saved)) →
    distinctMembers (setTeams (insert tid saved) db)) as Hsaved.
  { intros tid team saved Hteam Hs tid' team'. simpl.
    destruct (decide (tid = tid')) as [<-|Hne].
    - rewrite lookup_insert_eq. intros [= <-]. apply Hs. by eapply Hdb.
    - rewrite lookup_insert_ne by done. apply Hdb. }
  destruct rf as [[tid caller email role|tid caller target|tid caller target role] f];
    unfold afterMember; simpl.
  - pose proof (addTeamMember_store castObjectId validateTeam users tid caller
                  email role f db) as H. cbv zeta in H.
    destruct H as [->|(oid & t & u & nr & Ht & Hnew & ->)]; [done|].
    apply (Hsaved _ _ _ Ht). unfold usersOf. simpl. intros Hnd.
    rewrite map_app. simpl. apply NoDup_app. split; [done|]. split.
    + intros x Hx Hx'. apply list_elem_of_singleton in Hx' as ->.
      apply list_elem_of_In in Hx.
      apply in_map_iff in Hx as (y & Hy & Hin).
      rewrite List.Forall_forall in Hnew. by apply (Hnew y).
    + apply NoDup_singleton.
  - pose proof (removeTeamMember_store castObjectId validateTeam tid caller
                  target f db) as H. cbv zeta in H.
    destruct H as [->|(oid & t & b & x & a & Ht & _ & Hl & _ & ->)]; [done|].
    apply (Hsaved _ _ _ Ht). unfold usersOf. simpl. rewrite Hl.
    rewrite !map_app. simpl. intros Hnd.
    apply NoDup_app in Hnd as (Hb & Hba & Ha).
    apply NoDup_cons in Ha as [_ Ha].
    apply NoDup_app. split; [done|]. split; [|done].
    intros y Hy Hy'. apply (Hba y Hy). by right.
  - pose proof (updateMemberRole_store castObjectId validateTeam tid caller
                  target role f db) as H. cbv zeta in H.
    destruct H as [->|(oid & t & nr & b & x & a & Ht & _ & Hl & _ & ->)];
      [done|].
    apply (Hsaved _ _ _ Ht). unfold usersOf. simpl. rewrite Hl.
    by rewrite !map_app.
Qed.

(** X18. If no team has two membership entries of one user, no sequence of
    member requests gives it two: a user who is a member is not added
    again. *)
Theorem members_stay_distinct
  (castObjectId : string → option string)
  (validateTeam : string → Team → option string)
  (users : gmap string string) (h : list (MemberRequest * option nat)) (db : Db) :
  distinctMembers db →
  distinctMembers (runMembers castObjectId validateTeam users h db).
Proof.
  revert db. induction h as [|rf h IH]; intros db Hdb; simpl; [done|].
  apply IH. by apply distinct_after.
Qed.

Lemma members_stay_distinct_witness :
  distinctMembers teamDb
  ∧ distinctMembers
      (runMembers castHex24 validateRoles sampleUsers
         [(AddMember team1 user1 (Some "ann@example.com") None, None);
          (AddMember team1 user1 (Some "ann@example.com") None, None)] teamDb).
Proof.
  assert (distinctMembers teamDb) as H.
  { intros tid team. unfold teamDb. simpl.
    destruct (decide (tid = team1)) as [->|Hne].
    - rewrite lookup_singleton_eq. intros [= <-].
      unfold usersOf. simpl.
      apply NoDup_cons. split; [by intros [= ]%list_elem_of_singleton|].
      apply NoDup_singleton.
    - by rewrite lookup_singleton_ne. }
  split; [exact H|]. by apply members_stay_distinct.
Defined.

End TeamsMoreFacts.

(** ** Creating a team *)

Section TeamCreationFacts.

Import TeamCreation.




End TeamCreationFacts.

(** ** The migration of company contexts *)

Section MigrationFacts.

Import Migration.

Implicit Types (db : Db) (f : option nat) (company : Company).

Ltac unfold_migration :=
  unfold migrateCompanyContexts, migrateCompany; unfold_handler.

(** One round of the loop leaves the store as it was, or appends a first
    record for a company that has no active one. *)
Lemma migrateCompany_effect company f db :
  let (o, w) := migrateCompany company {| store := db; fault := f |} in
  store w = db
  ∨ (activeOf (companyId company) db = []
     ∧ store w = setContexts (fun l => (l ++ [firstRecord company])%list) db).
Proof.
  unfold_migration. unfold activeOf.
  first_call f; [by left| |].
  - destruct (Query.find _ _) as [|c l] eqn:E; simpl; [|by left].
    destruct (String.eqb _ ""); simpl; [by left|].
    destruct (CompanyContext_validate _); simpl; [by left|].
    later_call f; [by left|by right].
  - destruct (Query.find _ _) as [|c l] eqn:E; simpl; [|by left].
    destruct (String.eqb _ ""); simpl; [by left|].
    destruct (CompanyContext_validate _); simpl; [by left|].
    by right.
Qed.

(** Without a fault, a company with a non-empty id has an active record
    after its round unless its [documentContext] is empty, and the loop
    goes on. *)
Lemma migrateCompany_covers company db :
  companyId company ≠ "" →
  ∃ created db',
    migrateCompany company {| store := db; fault := None |}
    = (Return created, {| store := db'; fault := None |})
    ∧ (documentContext company ≠ "" → activeOf (companyId company) db' ≠ [])
    ∧ (activeOf (companyId company) db ≠ [] ∨ documentContext company = "" →
       db' = db).
Proof.
  intros Hid. unfold_migration. unfold activeOf. simpl.
  destruct (Query.find _ _) as [|c l] eqn:E; simpl.
  - destruct (String.eqb_spec (documentContext company) "") as [Hctx|Hctx]; simpl.
    + exists false, db. split; [done|]. split; [done|]. done.
    + unfold CompanyContext_validate. simpl. nonempty. simpl.
      exists true,
        (setContexts (fun l => (l ++ [firstRecord company])%list) db).
      split; [done|]. split.
      * intros _. simpl. rewrite find_app. simpl.
        unfold Query.activeOf at 2, Query.byCompany. simpl.
        rewrite String.eqb_refl. simpl. by destruct (Query.find _ _).
      * intros [?|?]; done.
  - exists false, db. split; [done|]. split; [|done]. by rewrite E.
Qed.

Lemma active_grows cid (l l' : list CompanyContext) :
  Query.find (Query.activeOf cid) l ≠ [] →
  Query.find (Query.activeOf cid) (l ++ l')%list ≠ [].
Proof. rewrite find_app. by destruct (Query.find _ l). Qed.

Lemma migrateEach_cons company found w :
  migrateEach (company :: found) w
  = match migrateCompany company w with
    | (Return _, w') => migrateEach found w'
    | (Raise e, w') => (Raise e, w')
    end.
Proof. reflexivity. Qed.

(** Every round keeps the companies and the teams and only appends to the
    version records. *)
Lemma migrateEach_appends found f db :
  let w := snd (migrateEach found {| store := db; fault := f |}) in
  companies (store w) = companies db ∧ teams (store w) = teams db
  ∧ ∃ added, contexts (store w) = (contexts db ++ added)%list.
Proof.
  revert f db. induction found as [|company found IH]; intros f db.
  { simpl. repeat split. exists []. by rewrite app_nil_r. }
  rewrite migrateEach_cons.
  pose proof (migrateCompany_effect company f db) as H.
  destruct (migrateCompany company _) as [[created|e] [db' f']]; simpl in *.
  - specialize (IH f' db'). cbv zeta in IH.
    destruct IH as (Hc & Ht & added & Ha). rewrite Hc, Ht, Ha.
    destruct H as [->|[_ ->]]; simpl.
    + repeat split. by exists added.
    + repeat split. eexists. by rewrite <- app_assoc.
  - destruct H as [->|[_ ->]]; simpl.
    + repeat split. exists []. by rewrite app_nil_r.
    + repeat split. by eexists.
Qed.

Lemma migrateEach_single found f db :
  (∀ cid, (List.length (activeOf cid db) ≤ 1)%nat) →
  ∀ cid,
    (List.length
       (activeOf cid (store (snd (migrateEach found {| store := db; fault := f |}))))
     ≤ 1)%nat.
Proof.
  revert f db. induction found as [|company found IH]; intros f db Hdb;
    [done|].
  rewrite migrateEach_cons.
  pose proof (migrateCompany_effect company f db) as H.
  assert (∀ cid,
    activeOf (companyId company) db = [] →
    (List.length (activeOf cid
       (setContexts (fun l => (l ++ [firstRecord company])%list) db)) ≤ 1)%nat)
    as Hnew.
  { intros cid Hnone. unfold activeOf in *. simpl. rewrite find_app. simpl.
    unfold Query.activeOf at 2, Query.byCompany. simpl.
    destruct (String.eqb_spec (companyId company) cid) as [<-|Hne]; simpl.
    - rewrite Hnone. simpl. lia.
    - rewrite app_nil_r. apply Hdb. }
  destruct (migrateCompany company _) as [[created|e] [db' f']]; simpl in *.
  - apply IH. destruct H as [->|[Hnone ->]]; [done|]. intros cid. by apply Hnew.
  - destruct H as [->|[Hnone ->]]; [done|]. intros cid. by apply Hnew.
Qed.

Lemma migrateEach_covers found db :
  Forall (fun company => companyId company ≠ "") found →
  ∃ db',
    migrateEach found {| store := db; fault := None |}
    = (Return tt, {| store := db'; fault := None |})
    ∧ Forall (fun company =>
        documentContext company ≠ "" → activeOf (companyId company) db' ≠ [])
        found
    ∧ (Forall (fun company =>
         activeOf (companyId company) db ≠ [] ∨ documentContext company = "")
         found → db' = db).
Proof.
  revert db. induction found as [|company found IH]; intros db Hids.
  { exists db. by repeat split. }
  apply Forall_cons in Hids as [Hid Hids].
  destruct (migrateCompany_covers company db Hid) as (created & db1 & Hrun & Hcov & Hsame).
  rewrite migrateEach_cons, Hrun.
  destruct (IH db1 Hids) as (db' & Hrest & Hall & Hkeep). rewrite Hrest.
  exists db'. split; [done|]. split.
  - constructor; [|done]. intros Hctx.
    pose proof (migrateEach_appends found None db1) as H.
    cbv zeta in H. rewrite Hrest in H. simpl in H.
    destruct H as (_ & _ & added & Hadd).
    unfold activeOf. rewrite Hadd. apply active_grows. by apply Hcov.
  - intros Hf. apply Forall_cons in Hf as [Hc Hf].
    rewrite (Hsame Hc) in *. by apply Hkeep.
Qed.

(** The store after the script is the store after some rounds of the loop. *)
Lemma migrateCompanyContexts_store naturalOrder f db :
  store (snd (migrateCompanyContexts naturalOrder {| store := db; fault := f |}))
  = db
  ∨ ∃ f',
      store (snd (migrateCompanyContexts naturalOrder
                    {| store := db; fault := f |}))
      = store (snd (migrateEach (naturalOrder (companies db))
                      {| store := db; fault := f' |})).
Proof.
  unfold migrateCompanyContexts. unfold_handler.
  first_call f; [by left| |].
  - right. exists (Some f).
    by destruct (migrateEach _ _) as [[[]|e] w].
  - right. exists None.
    by destruct (migrateEach _ _) as [[[]|e] w].
Qed.

Lemma found_companies naturalOrder (m : gmap string Company) company :
  listsAll naturalOrder →
  In company (naturalOrder m) ↔ ∃ k, m !! k = Some company.
Proof.
  intros Hall. rewrite <- list_elem_of_In, (Hall m), list_elem_of_In.
  rewrite in_map_iff. split.
  - intros ([k c] & <- & Hin). exists k.
    apply list_elem_of_In in Hin. by apply elem_of_map_to_list in Hin.
  - intros [k Hk]. exists (k, company). split; [done|].
    apply list_elem_of_In. by apply elem_of_map_to_list.
Qed.

Lemma listsAll_byKey : listsAll byKey.
Proof. by intros m. Qed.

(** Without a fault, the script runs the loop to its end. *)
Lemma migrateCompanyContexts_run naturalOrder db db' :
  migrateEach (naturalOrder (companies db)) {| store := db; fault := None |}
  = (Return tt, {| store := db'; fault := None |}) →
  store (snd (migrateCompanyContexts naturalOrder
                {| store := db; fault := None |})) = db'.
Proof.
  intros Hrun. unfold migrateCompanyContexts. unfold_handler. simpl.
  by rewrite Hrun.
Qed.

(** X20. Whatever call throws and in whatever order the companies are
    found, the migration changes no company and no team, keeps every
    version record as it is and in its place, and gives no company a
    second active record. *)
Theorem migration_is_safe
  (naturalOrder : gmap string Company → list Company) (f : option nat) (db : Db) :
  let w := snd (migrateCompanyContexts naturalOrder
                  {| store := db; fault := f |}) in
  companies (store w) = companies db
  ∧ teams (store w) = teams db
  ∧ (∃ added, contexts (store w) = (contexts db ++ added)%list)
  ∧ ((∀ cid, (List.length (activeOf cid db) ≤ 1)%nat) →
     ∀ cid, (List.length (activeOf cid (store w)) ≤ 1)%nat).
Proof.
  cbv zeta.
  destruct (migrateCompanyContexts_store naturalOrder f db) as [->|[f' ->]].
  { repeat split; [|done]. exists []. by rewrite app_nil_r. }
  pose proof (migrateEach_appends (naturalOrder (companies db)) f' db)
    as (Hc & Ht & Ha).
  repeat split; [done..|]. intros Hdb. by apply migrateEach_single.
Qed.

Lemma migration_is_safe_witness :
  let w := snd (migrateCompanyContexts byKey
                  {| store := legacyDb "Y"; fault := Some 1%nat |}) in
  (∀ cid, (List.length (activeOf cid (legacyDb "Y")) ≤ 1)%nat)
  ∧ ∀ cid, (List.length (activeOf cid (store w)) ≤ 1)%nat.
Proof.
  intros w.
  assert (∀ cid, (List.length (activeOf cid (legacyDb "Y")) ≤ 1)%nat) as H
    by (intros cid; simpl; lia).
  split; [exact H|].
  by apply (migration_is_safe byKey (Some 1%nat) (legacyDb "Y")).
Defined.

(** X21. When no call throws, every company with a non-empty [documentContext]
    has an active version record after the migration, so that a read of
    its context is answered from the versioned collection and no longer
    from the fallback. (The [companyId] of a stored company is not empty
    and is the key it is stored under.) *)
Theorem migration_covers
  (naturalOrder : gmap string Company → list Company)
  (db : Db) (cid : string) (company : Company) :
  listsAll naturalOrder →
  (∀ k c, companies db !! k = Some c → companyId c = k ∧ k ≠ "") →
  companies db !! cid = Some company → documentContext company ≠ "" →
  let w := snd (migrateCompanyContexts naturalOrder
                  {| store := db; fault := None |}) in
  activeOf cid (store w) ≠ []
  ∧ ∃ text v,
      fst (getCompanyContext cid {| store := store w; fault := None |})
      = Json 200 (DataContext cid (name company) text v "context_collection").
Proof.
  intros Horder Hkeys Hsome Hctx. cbv zeta.
  assert (Forall (fun c => companyId c ≠ "") (naturalOrder (companies db)))
    as Hids.
  { apply List.Forall_forall. intros c [k Hk]%(found_companies _ _ _ Horder).
    destruct (Hkeys k c Hk) as [-> ?]. done. }
  destruct (migrateEach_covers _ db Hids) as (db' & Hrun & Hall & _).
  pose proof (migrateEach_appends (naturalOrder (companies db)) None db)
    as Happ. cbv zeta in Happ. rewrite Hrun in Happ. simpl in Happ.
  destruct Happ as (Hc & _ & _).
  rewrite (migrateCompanyContexts_run _ _ _ Hrun).
  rewrite List.Forall_forall in Hall.
  destruct (Hkeys cid company Hsome) as [Hid _].
  assert (activeOf cid db' ≠ []) as Hactive.
  { rewrite <- Hid. apply Hall; [|done].
    apply (found_companies _ _ _ Horder). eauto. }
  split; [done|].
  destruct (active_read cid company db') as (text & v & ->);
    [by rewrite Hc|done|].
  rewrite Hid. eauto.
Qed.

Lemma migration_covers_witness :
  let w := snd (migrateCompanyContexts byKey
                  {| store := legacyDb "Y"; fault := None |}) in
  activeOf "c1" (legacyDb "Y") = []
  ∧ activeOf "c1" (store w) ≠ []
  ∧ ∃ text v,
      fst (getCompanyContext "c1" {| store := store w; fault := None |})
      = Json 200 (DataContext "c1" "Acme" text v "context_collection").
Proof.
  intros w. split; [reflexivity|].
  apply (migration_covers byKey (legacyDb "Y") "c1" (legacyCompany "Y")).
  - exact listsAll_byKey.
  - intros k c. unfold legacyDb. simpl.
    destruct (decide (k = "c1")) as [->|Hne].
    + rewrite lookup_singleton_eq. intros [= <-]. by split.
    + by rewrite lookup_singleton_ne.
  - vm_compute. reflexivity.
  - discriminate.
Defined.

(** X22. When no call throws, a second run of the migration changes nothing,
    in whatever order each run finds the companies. *)
Theorem migration_idempotent
  (first second : gmap string Company → list Company) (db : Db) :
  listsAll first → listsAll second →
  (∀ k c, companies db !! k = Some c → companyId c ≠ "") →
  let db' := store (snd (migrateCompanyContexts first
                           {| store := db; fault := None |})) in
  store (snd (migrateCompanyContexts second {| store := db'; fault := None |}))
  = db'.
Proof.
  intros Hfirst Hsecond Hkeys. cbv zeta.
  assert (∀ order, listsAll order →
    Forall (fun c => companyId c ≠ "") (order (companies db))) as Hids.
  { intros order Horder. apply List.Forall_forall.
    intros c [k Hk]%(found_companies _ _ _ Horder). by eapply Hkeys. }
  destruct (migrateEach_covers _ db (Hids first Hfirst))
    as (db' & Hrun & Hall & _).
  pose proof (migrateEach_appends (first (companies db)) None db)
    as Happ. cbv zeta in Happ. rewrite Hrun in Happ. simpl in Happ.
  destruct Happ as (Hc & _ & _).
  rewrite (migrateCompanyContexts_run _ _ _ Hrun).
  assert (Forall (fun c => companyId c ≠ "") (second (companies db'))) as Hids'
    by (rewrite Hc; by apply Hids).
  destruct (migrateEach_covers _ db' Hids') as (db'' & Hrun' & _ & Hsame).
  rewrite (migrateCompanyContexts_run _ _ _ Hrun').
  apply Hsame. rewrite Hc. apply List.Forall_forall.
  intros c Hin. rewrite List.Forall_forall in Hall.
  destruct (String.eqb_spec (documentContext c) ""); [by right|]. left.
  apply Hall; [|done].
  apply (found_companies _ _ _ Hfirst).
  by apply (found_companies _ _ _ Hsecond) in Hin.
Qed.

Lemma migration_idempotent_witness :
  let db' := store (snd (migrateCompanyContexts byKey
                           {| store := legacyDb "Y"; fault := None |})) in
  List.length (contexts db') = 1%nat
  ∧ store (snd (migrateCompanyContexts byKey {| store := db'; fault := None |}))
    = db'.
Proof.
  intros db'. split; [vm_compute; reflexivity|].
  apply (migration_idempotent byKey byKey (legacyDb "Y"));
    [exact listsAll_byKey..|].
  intros k c. unfold legacyDb. simpl.
  destruct (decide (k = "c1")) as [->|Hne].
  - rewrite lookup_singleton_eq. by intros [= <-].
  - by rewrite lookup_singleton_ne.
Defined.

End MigrationFacts.
